(** * EtherX Excel: the document state store

    A shallow embedding of the document state container of the spreadsheet
    editor: the schema of [src/types/documentState.ts], the reducer, the
    derived queries and the persistence entry points of
    [src/contexts/DocumentStateContext.tsx], and the column conversion of the
    export service.

    Modelling conventions.
    - A JavaScript value is a [JsVal]; a JavaScript object is a finite map
      from property names to values.  A lookup models reading an own
      property, so [o !! k = None] reads as [undefined].  Where the program
      takes what it reads from the prototype for a value of its own
      ([isCellLocked]) or assigns under a key that may be [__proto__] (the
      batch of UPDATE_CELLS), the prototype is modelled too.
    - The two types whose fields the reducer addresses one by one
      ([DocumentState], [SheetData]) are records: the spread
      [{...sheet, images: v}] is a record update.  The types the reducer
      merges with a [Partial<...>] payload (metadata, cell data, cell style,
      grid configuration, images, charts) are property maps, and the spread
      [{...a, ...b}] is the union of maps in which [b] wins.
    - [number] is modelled by [Z]; the reducer only carries numbers around,
      except for [sheets.length + 1].  The column conversion computes with
      its numbers: it is given both in exact integers and in doubles, with
      the rounding written out ([Double]).
    - What a promise rejects with, like anything thrown, is a [JsVal].
    - [new Date().toISOString()] is an input of the function that calls it
      (the argument [now]). *)

From Stdlib Require Import ZArith Ascii String.
From stdpp Require Import gmap strings list fin_maps pretty.

#[local] Open Scope Z_scope.
#[local] Set Warnings "-register-all".

(** ** JavaScript values *)

Inductive JsVal : Type :=
  | JUndefined
  | JNull
  | JBool (b : bool)
  | JNum (n : Z)
  | JStr (s : string)
  | JArr (l : list JsVal)
  | JObj (o : gmap string JsVal).

Abbreviation JsObj := (gmap string JsVal).

(** The truthiness test applied by [||], [?:] and [if]. *)
Definition truthy (v : JsVal) : bool :=
  match v with
  | JUndefined | JNull => false
  | JBool b => b
  | JNum n => negb (Z.eqb n 0)
  | JStr s => negb (String.eqb s "")
  | JArr _ | JObj _ => true
  end.

(** [a || b] *)
Definition jsOr (a b : JsVal) : JsVal := if truthy a then a else b.

(** Reading a property that may be missing: [o.k]. *)
Definition prop (o : JsObj) (k : string) : JsVal := default JUndefined (o !! k).

(** The properties copied by [{...v}] when [v] is an object or [undefined];
    by their types the spread operands of the reducer are nothing else. *)
Definition spread (v : option JsVal) : JsObj :=
  match v with
  | Some (JObj o) => o
  | _ => ∅
  end.

(** [o.id === i] for a string [i]. *)
Definition idIs (o : JsObj) (i : string) : bool :=
  match o !! "id" with
  | Some (JStr s) => String.eqb s i
  | _ => false
  end.

(** The property key a number index turns into: [{[rowIndex]: size}]. *)
Definition numKey (n : Z) : string := pretty n.

(** ** Schema ([src/types/documentState.ts]) *)

Record SheetData : Type := mkSheet {
  sheetId : string;
  name : string;
  color : option string;
  visible : bool;
  protected : option bool;
  protectionPassword : option string;
  cellLocks : option (gmap string bool);
  grid : JsObj;
  cells : gmap string JsObj;
  images : list JsObj;
  shapes : list JsObj;
  charts : list JsObj;
  links : list JsObj;
  symbols : list JsObj;
  conditionalFormatting : list JsObj;
  namedRanges : option JsObj;
  sortState : option JsObj;
  filterState : option JsObj;
  zoom : option Z;
  scrollPosition : option JsObj
}.

Record DocumentState : Type := mkDoc {
  documentId : string;
  metadata : JsObj;
  sheets : list SheetData;
  activeSheetId : string;
  settings : option JsObj;
  versionHistory : option (list JsObj)
}.

Inductive DocumentAction : Type :=
  | SET_DOCUMENT (payload : DocumentState)
  | UPDATE_METADATA (payload : JsObj)
  | ADD_SHEET (payload : SheetData)
  | REMOVE_SHEET (payload : string)
  | RENAME_SHEET (sid : string) (newName : string)
  | SET_ACTIVE_SHEET (payload : string)
  | UPDATE_CELL (sid cellKey : string) (data : JsObj)
  | UPDATE_CELLS (sid : string) (newCells : gmap string JsObj)
  | SET_CELL_STYLE (sid cellKey : string) (style : JsObj)
  | ADD_IMAGE (sid : string) (image : JsObj)
  | UPDATE_IMAGE (sid imageId : string) (updates : JsObj)
  | REMOVE_IMAGE (sid imageId : string)
  | ADD_SHAPE (sid : string) (shape : JsObj)
  | UPDATE_SHAPE (sid shapeId : string) (updates : JsObj)
  | REMOVE_SHAPE (sid shapeId : string)
  | ADD_CHART (sid : string) (chart : JsObj)
  | UPDATE_CHART (sid chartId : string) (updates : JsObj)
  | REMOVE_CHART (sid chartId : string)
  | UPDATE_GRID_CONFIG (sid : string) (config : JsObj)
  | SET_ROW_SIZE (sid : string) (rowIndex size : Z)
  | SET_COLUMN_SIZE (sid : string) (colIndex size : Z)
  | ADD_CONDITIONAL_FORMAT (sid : string) (format : JsObj)
  | REMOVE_CONDITIONAL_FORMAT (sid formatId : string)
  | SET_DATA_VALIDATION (sid cellKey : string) (validation : JsObj)
  | SET_SPARKLINE (sid cellKey : string) (sparkline : JsVal)
  | PROTECT_SHEET (sid : string) (isProtected : bool) (password : option string)
  | LOCK_CELLS (sid : string) (cellKeys : list string) (locked : bool)
  | RESTORE_FROM_IPFS (payload : DocumentState).

(** ** Record updates: [{...sheet, field: v}] and [{...state, field: v}] *)

Definition withName (v : string) (s : SheetData) : SheetData :=
  mkSheet (sheetId s) v (color s) (visible s) (protected s)
    (protectionPassword s) (cellLocks s) (grid s) (cells s) (images s)
    (shapes s) (charts s) (links s) (symbols s) (conditionalFormatting s)
    (namedRanges s) (sortState s) (filterState s) (zoom s) (scrollPosition s).

Definition withProtection (p : bool) (pw : option string) (s : SheetData)
  : SheetData :=
  mkSheet (sheetId s) (name s) (color s) (visible s) (Some p) pw
    (cellLocks s) (grid s) (cells s) (images s)
    (shapes s) (charts s) (links s) (symbols s) (conditionalFormatting s)
    (namedRanges s) (sortState s) (filterState s) (zoom s) (scrollPosition s).

Definition withCellLocks (v : gmap string bool) (s : SheetData) : SheetData :=
  mkSheet (sheetId s) (name s) (color s) (visible s) (protected s)
    (protectionPassword s) (Some v) (grid s) (cells s) (images s)
    (shapes s) (charts s) (links s) (symbols s) (conditionalFormatting s)
    (namedRanges s) (sortState s) (filterState s) (zoom s) (scrollPosition s).

Definition withGrid (v : JsObj) (s : SheetData) : SheetData :=
  mkSheet (sheetId s) (name s) (color s) (visible s) (protected s)
    (protectionPassword s) (cellLocks s) v (cells s) (images s)
    (shapes s) (charts s) (links s) (symbols s) (conditionalFormatting s)
    (namedRanges s) (sortState s) (filterState s) (zoom s) (scrollPosition s).

Definition withCells (v : gmap string JsObj) (s : SheetData) : SheetData :=
  mkSheet (sheetId s) (name s) (color s) (visible s) (protected s)
    (protectionPassword s) (cellLocks s) (grid s) v (images s)
    (shapes s) (charts s) (links s) (symbols s) (conditionalFormatting s)
    (namedRanges s) (sortState s) (filterState s) (zoom s) (scrollPosition s).

Definition withImages (v : list JsObj) (s : SheetData) : SheetData :=
  mkSheet (sheetId s) (name s) (color s) (visible s) (protected s)
    (protectionPassword s) (cellLocks s) (grid s) (cells s) v
    (shapes s) (charts s) (links s) (symbols s) (conditionalFormatting s)
    (namedRanges s) (sortState s) (filterState s) (zoom s) (scrollPosition s).

Definition withCharts (v : list JsObj) (s : SheetData) : SheetData :=
  mkSheet (sheetId s) (name s) (color s) (visible s) (protected s)
    (protectionPassword s) (cellLocks s) (grid s) (cells s) (images s)
    (shapes s) v (links s) (symbols s) (conditionalFormatting s)
    (namedRanges s) (sortState s) (filterState s) (zoom s) (scrollPosition s).

Definition withConditionalFormatting (v : list JsObj) (s : SheetData)
  : SheetData :=
  mkSheet (sheetId s) (name s) (color s) (visible s) (protected s)
    (protectionPassword s) (cellLocks s) (grid s) (cells s) (images s)
    (shapes s) (charts s) (links s) (symbols s) v
    (namedRanges s) (sortState s) (filterState s) (zoom s) (scrollPosition s).

Definition withMetadata (v : JsObj) (st : DocumentState) : DocumentState :=
  mkDoc (documentId st) v (sheets st) (activeSheetId st) (settings st)
    (versionHistory st).

Definition withSheets (v : list SheetData) (st : DocumentState)
  : DocumentState :=
  mkDoc (documentId st) (metadata st) v (activeSheetId st) (settings st)
    (versionHistory st).

Definition withActiveSheetId (v : string) (st : DocumentState)
  : DocumentState :=
  mkDoc (documentId st) (metadata st) (sheets st) v (settings st)
    (versionHistory st).

Definition withVersionHistory (v : list JsObj) (st : DocumentState)
  : DocumentState :=
  mkDoc (documentId st) (metadata st) (sheets st) (activeSheetId st)
    (settings st) (Some v).

(** ** The reducer *)

(** [metadata: {...state.metadata, updatedAt: new Date().toISOString()}] *)
Definition touch (now : string) (st : DocumentState) : DocumentState :=
  withMetadata (<["updatedAt" := JStr now]> (metadata st)) st.

(** [state.sheets.map(sheet => sheet.sheetId === id ? f(sheet) : sheet)] *)
Definition mapSheet (id : string) (f : SheetData → SheetData)
    (l : list SheetData) : list SheetData :=
  (λ sheet, if String.eqb (sheetId sheet) id then f sheet else sheet) <$> l.

(** [{...sheet.cells[key], ...data}] *)
Definition mergeCell (cs : gmap string JsObj) (key : string) (data : JsObj)
  : JsObj :=
  data ∪ default ∅ (cs !! key).

(** [filteredSheets[0]?.sheetId || ''] *)
Definition firstSheetId (l : list SheetData) : string :=
  match head l with
  | Some s => if String.eqb (sheetId s) "" then "" else sheetId s
  | None => ""
  end.

(** [Object.entries(cells).reduce((acc, [key, data]) => { acc[key] = ...;
    return acc; }, {})]: the entries the accumulator holds at the end.  The
    assignment [acc[key] = object] stores an entry under every key but
    [__proto__]: there it sets the prototype of the accumulator, which the
    spread [{...sheet.cells, ...acc}] does not copy. *)
Definition assignedEntries {A} (entries : gmap string A) : gmap string A :=
  delete "__proto__" entries.

(** [cellKeys.reduce((acc, cellKey) => ({...acc, [cellKey]: locked}), {})];
    a computed key of an object literal defines an own property, whatever
    the key. *)
Definition lockEntries (cellKeys : list string) (locked : bool)
  : gmap string bool :=
  foldl (λ acc cellKey, <[cellKey := locked]> acc) ∅ cellKeys.

Definition documentReducer (now : string) (state : DocumentState)
    (action : DocumentAction) : DocumentState :=
  match action with
  | SET_DOCUMENT payload => payload
  | UPDATE_METADATA payload =>
      withMetadata
        (<["updatedAt" := JStr now]> (payload ∪ metadata state)) state
  | ADD_SHEET payload =>
      withMetadata
        (<["updatedAt" := JStr now]>
           (<["sheetCount" := JNum (Z.of_nat (length (sheets state)) + 1)]>
              (metadata state)))
        (withSheets (sheets state ++ [payload]) state)
  | REMOVE_SHEET payload =>
      let filteredSheets :=
        filter (λ s, sheetId s ≠ payload) (sheets state) in
      withMetadata
        (<["updatedAt" := JStr now]>
           (<["sheetCount" := JNum (Z.of_nat (length filteredSheets))]>
              (metadata state)))
        (withActiveSheetId
           (if String.eqb (activeSheetId state) payload
            then firstSheetId filteredSheets
            else activeSheetId state)
           (withSheets filteredSheets state))
  | RENAME_SHEET sid newName =>
      touch now (withSheets
        (mapSheet sid (withName newName) (sheets state)) state)
  | SET_ACTIVE_SHEET payload => withActiveSheetId payload state
  | UPDATE_CELL sid cellKey data =>
      touch now (withSheets
        (mapSheet sid
           (λ sheet, withCells
              (<[cellKey := mergeCell (cells sheet) cellKey data]> (cells sheet))
              sheet)
           (sheets state)) state)
  | UPDATE_CELLS sid newCells =>
      touch now (withSheets
        (mapSheet sid
           (λ sheet, withCells
              (map_imap (λ key data, Some (mergeCell (cells sheet) key data))
                 (assignedEntries newCells) ∪ cells sheet)
              sheet)
           (sheets state)) state)
  | SET_CELL_STYLE sid cellKey style =>
      touch now (withSheets
        (mapSheet sid
           (λ sheet, withCells
              (<[cellKey :=
                   <["style" :=
                       JObj (style ∪
                             spread (cells sheet !! cellKey ≫= (.!! "style")))]>
                     (default ∅ (cells sheet !! cellKey))]> (cells sheet))
              sheet)
           (sheets state)) state)
  | ADD_IMAGE sid image =>
      touch now (withSheets
        (mapSheet sid (λ sheet, withImages (images sheet ++ [image]) sheet)
           (sheets state)) state)
  | UPDATE_IMAGE sid imageId updates =>
      touch now (withSheets
        (mapSheet sid
           (λ sheet, withImages
              ((λ img, if idIs img imageId then updates ∪ img else img)
                 <$> images sheet)
              sheet)
           (sheets state)) state)
  | REMOVE_IMAGE sid imageId =>
      touch now (withSheets
        (mapSheet sid
           (λ sheet, withImages
              (List.filter (λ img, negb (idIs img imageId)) (images sheet))
              sheet)
           (sheets state)) state)
  | ADD_CHART sid chart =>
      touch now (withSheets
        (mapSheet sid (λ sheet, withCharts (charts sheet ++ [chart]) sheet)
           (sheets state)) state)
  | UPDATE_CHART sid chartId updates =>
      touch now (withSheets
        (mapSheet sid
           (λ sheet, withCharts
              ((λ chart, if idIs chart chartId then updates ∪ chart else chart)
                 <$> charts sheet)
              sheet)
           (sheets state)) state)
  | REMOVE_CHART sid chartId =>
      touch now (withSheets
        (mapSheet sid
           (λ sheet, withCharts
              (List.filter (λ chart, negb (idIs chart chartId)) (charts sheet))
              sheet)
           (sheets state)) state)
  | UPDATE_GRID_CONFIG sid config =>
      touch now (withSheets
        (mapSheet sid (λ sheet, withGrid (config ∪ grid sheet) sheet)
           (sheets state)) state)
  | SET_ROW_SIZE sid rowIndex size =>
      touch now (withSheets
        (mapSheet sid
           (λ sheet, withGrid
              (<["rowSizes" :=
                   JObj (<[numKey rowIndex := JNum size]>
                           (spread (grid sheet !! "rowSizes")))]> (grid sheet))
              sheet)
           (sheets state)) state)
  | SET_COLUMN_SIZE sid colIndex size =>
      touch now (withSheets
        (mapSheet sid
           (λ sheet, withGrid
              (<["columnSizes" :=
                   JObj (<[numKey colIndex := JNum size]>
                           (spread (grid sheet !! "columnSizes")))]> (grid sheet))
              sheet)
           (sheets state)) state)
  | ADD_CONDITIONAL_FORMAT sid format =>
      touch now (withSheets
        (mapSheet sid
           (λ sheet, withConditionalFormatting
              (conditionalFormatting sheet ++ [format]) sheet)
           (sheets state)) state)
  | REMOVE_CONDITIONAL_FORMAT sid formatId =>
      touch now (withSheets
        (mapSheet sid
           (λ sheet, withConditionalFormatting
              (List.filter (λ cf, negb (idIs cf formatId))
                 (conditionalFormatting sheet))
              sheet)
           (sheets state)) state)
  | SET_DATA_VALIDATION sid cellKey validation =>
      touch now (withSheets
        (mapSheet sid
           (λ sheet, withCells
              (<[cellKey :=
                   <["validation" := JObj validation]>
                     (default ∅ (cells sheet !! cellKey))]> (cells sheet))
              sheet)
           (sheets state)) state)
  | SET_SPARKLINE sid cellKey sparkline =>
      touch now (withSheets
        (mapSheet sid
           (λ sheet, withCells
              (<[cellKey :=
                   <["sparkline" := jsOr sparkline JUndefined]>
                     (default ∅ (cells sheet !! cellKey))]> (cells sheet))
              sheet)
           (sheets state)) state)
  | PROTECT_SHEET sid isProtected password =>
      touch now (withSheets
        (mapSheet sid (withProtection isProtected password) (sheets state))
        state)
  | LOCK_CELLS sid cellKeys locked =>
      touch now (withSheets
        (mapSheet sid
           (λ sheet, withCellLocks
              (lockEntries cellKeys locked ∪ default ∅ (cellLocks sheet))
              sheet)
           (sheets state)) state)
  | RESTORE_FROM_IPFS payload => payload
  | ADD_SHAPE _ _ | UPDATE_SHAPE _ _ _ | REMOVE_SHAPE _ _ => state
  end.

(** ** Initial state ([createInitialState]) *)

(** [now] is the reading of [new Date().toISOString()], [ms1] and [ms2] the
    two readings of [Date.now()]. *)
Definition createInitialState (now : string) (ms1 ms2 : Z) : DocumentState :=
  let sheetId := "sheet-1" in
  mkDoc ("doc-" +:+ pretty ms1)
    (list_to_map
       [("documentId", JStr ("doc-" +:+ pretty ms2));
        ("title", JStr "Untitled Spreadsheet");
        ("owner", JStr "anonymous");
        ("createdAt", JStr now);
        ("updatedAt", JStr now);
        ("theme", JStr "light");
        ("sheetCount", JNum 1);
        ("version", JStr "1.0.0")])
    [mkSheet sheetId "Sheet1" None true None None None
       (list_to_map
          [("rows", JNum 1000);
           ("columns", JNum 26);
           ("rowSizes", JObj ∅);
           ("columnSizes", JObj ∅);
           ("frozenRows", JNum 0);
           ("frozenColumns", JNum 0);
           ("showGridlines", JBool true);
           ("showRowHeaders", JBool true);
           ("showColumnHeaders", JBool true);
           ("defaultRowHeight", JNum 24);
           ("defaultColumnWidth", JNum 100);
           ("hiddenRows", JArr []);
           ("hiddenColumns", JArr [])])
       ∅ [] [] [] [] [] [] None None None None None]
    sheetId
    (Some (list_to_map
       [("autoSave", JBool true);
        ("autoSaveInterval", JNum 30);
        ("showFormulaBar", JBool true);
        ("calculationMode", JStr "auto");
        ("r1c1ReferenceStyle", JBool false)]))
    (Some []).

(** ** Derived queries of the provider *)

(** [state.sheets.find(s => s.sheetId === sheetId)] *)
Definition findSheet (state : DocumentState) (id : string) : option SheetData :=
  List.find (λ s, String.eqb (sheetId s) id) (sheets state).

(** The names every plain object answers to without holding them: the
    properties of [Object.prototype].  What it holds under them is a
    function, and under [__proto__] the prototype object itself: a truthy
    value in every case. *)
Definition objectPrototype : list string :=
  ["constructor"; "__defineGetter__"; "__defineSetter__"; "hasOwnProperty";
   "__lookupGetter__"; "__lookupSetter__"; "isPrototypeOf";
   "propertyIsEnumerable"; "toString"; "valueOf"; "__proto__";
   "toLocaleString"].

(** Modelled from the spec: the keys of [cells] and [cellLocks] are
    spreadsheet-style cell references such as A1, made of column letters and
    the digits of a row number.  [getCellKey], which builds them, is not
    part of the sources at hand. *)
Definition isDigit (c : ascii) : bool :=
  (48 <=? Z.of_nat (nat_of_ascii c)) && (Z.of_nat (nat_of_ascii c) <=? 57).

Definition isColumnLetter (c : ascii) : bool :=
  (65 <=? Z.of_nat (nat_of_ascii c)) && (Z.of_nat (nat_of_ascii c) <=? 90).

Definition cellReference (key : string) : bool :=
  forallb (λ c, isColumnLetter c || isDigit c) (list_ascii_of_string key).

(** What [isCellLocked] returns.  It is declared [boolean], but
    [sheet.cellLocks?.[cellKey] || false] hands on whatever truthy value the
    lookup finds: for a name of [objectPrototype] that the object does not
    hold itself, the inherited value. *)
Inductive LockAnswer : Type :=
  | LockBool (b : bool)
  | LockInherited (name : string).

(** The truthiness of an answer, which is what a caller's [if] sees. *)
Definition answersLocked (a : LockAnswer) : bool :=
  match a with
  | LockBool b => b
  | LockInherited _ => true
  end.

(** [locks[cellKey] || false] on a plain object of booleans: an own entry
    decides, otherwise the prototype is asked. *)
Definition readLock (locks : gmap string bool) (cellKey : string)
  : LockAnswer :=
  match locks !! cellKey with
  | Some b => LockBool b
  | None =>
      if bool_decide (cellKey ∈ objectPrototype)
      then LockInherited cellKey
      else LockBool false
  end.

Definition isCellLocked (state : DocumentState) (id cellKey : string)
  : LockAnswer :=
  match findSheet state id with
  | None => LockBool false
  | Some sheet =>
      if default false (protected sheet) then LockBool true
      else
        (* [sheet.cellLocks?.[cellKey] || false] *)
        match cellLocks sheet with
        | None => LockBool false
        | Some locks => readLock locks cellKey
        end
  end.

Definition isSheetProtected (state : DocumentState) (id : string) : bool :=
  match findSheet state id ≫= protected with
  | Some true => true
  | _ => false
  end.

Definition activeSheet (state : DocumentState) : option SheetData :=
  findSheet state (activeSheetId state).

(** ** The provider's asynchronous operations

    The provider owns the reducer state; [dispatch] hands an action to the
    reducer.  The storage service [../services/ipfsDocumentService] is
    outside the provider: its two functions are parameters here.  An
    operation runs in a world made of the store's current state, the state of
    the remote storage and the clock; it resolves with a value or rejects
    with an error, which as anything thrown in JavaScript is a value of any
    kind. *)

Inductive Outcome (A : Type) : Type :=
  | Resolved (a : A)
  | Rejected (error : JsVal).
Arguments Resolved {A} a.
Arguments Rejected {A} error.

Record World (Remote : Type) : Type := mkWorld {
  current : DocumentState;
  remote : Remote;
  clock : nat → string;
  tick : nat
}.
Arguments mkWorld {Remote}.
Arguments current {Remote}.
Arguments remote {Remote}.
Arguments clock {Remote}.
Arguments tick {Remote}.

Definition Async (Remote A : Type) : Type :=
  World Remote → Outcome A * World Remote.

Section Provider.
Context {Remote : Type}.

Definition ret {A} (a : A) : Async Remote A := λ w, (Resolved a, w).

Definition throw {A} (error : JsVal) : Async Remote A :=
  λ w, (Rejected error, w).

Definition bind {A B} (m : Async Remote A) (k : A → Async Remote B)
  : Async Remote B :=
  λ w, match m w with
       | (Resolved a, w') => k a w'
       | (Rejected e, w') => (Rejected e, w')
       end.

(** [try { m } catch (error) { handler(error) }] *)
Definition tryCatch {A} (m : Async Remote A)
    (handler : JsVal → Async Remote A) : Async Remote A :=
  λ w, match m w with
       | (Resolved a, w') => (Resolved a, w')
       | (Rejected e, w') => handler e w'
       end.

(** [new Date().toISOString()]: the next reading of the clock. *)
Definition getNow : Async Remote string :=
  λ w, (Resolved (clock w (tick w)),
        mkWorld (current w) (remote w) (clock w) (S (tick w))).

(** A call of the storage service: it sees and changes the remote only. *)
Definition callService {A} (f : Remote → Outcome A * Remote)
  : Async Remote A :=
  λ w, let '(r, rem) := f (remote w) in
       (r, mkWorld (current w) rem (clock w) (tick w)).

(** [dispatch(action)]: the store reduces its current state.  The store
    runs the reducer on the dispatched actions in the order of their
    dispatch; here it runs at the dispatch. *)
Definition dispatch (action : DocumentAction) : Async Remote unit :=
  bind getNow (λ now w,
    (Resolved tt,
     mkWorld (documentReducer now (current w) action)
       (remote w) (clock w) (tick w))).

(** The convenience mutators. *)
Definition updateCell (id cellKey : string) (data : JsObj)
  : Async Remote unit :=
  dispatch (UPDATE_CELL id cellKey data).

Definition setCellStyle (id cellKey : string) (style : JsObj)
  : Async Remote unit :=
  dispatch (SET_CELL_STYLE id cellKey style).

Definition addImage (id : string) (image : JsObj) : Async Remote unit :=
  dispatch (ADD_IMAGE id image).

Definition addChart (id : string) (chart : JsObj) : Async Remote unit :=
  dispatch (ADD_CHART id chart).

Definition updateMetadata (metadata : JsObj) : Async Remote unit :=
  dispatch (UPDATE_METADATA metadata).

Definition setSparkline (id cellKey : string) (sparkline : JsVal)
  : Async Remote unit :=
  dispatch (SET_SPARKLINE id cellKey sparkline).

Definition protectSheet (id : string) (isProtected : bool)
    (password : option string) : Async Remote unit :=
  dispatch (PROTECT_SHEET id isProtected password).

Definition lockCells (id : string) (cellKeys : list string) (locked : bool)
  : Async Remote unit :=
  dispatch (LOCK_CELLS id cellKeys locked).

#[local] Notation "'await' x ← m ; k" := (bind m (λ x, k))
  (at level 20, x name, m at level 100, k at level 200, only parsing).
#[local] Notation "m ;; k" := (bind m (λ _, k))
  (at level 100, k at level 200, right associativity, only parsing).

Variable uploadDocumentToIPFS :
  DocumentState → Remote → Outcome string * Remote.
Variable loadDocumentFromIPFS :
  string → Remote → Outcome DocumentState * Remote.

(** [state] is the state captured by the callback ([useCallback] with the
    dependency [state]). *)
Definition saveToIPFS (state : DocumentState) : Async Remote string :=
  tryCatch
    (await cid ← callService (uploadDocumentToIPFS state);
     await t1 ← getNow;
     dispatch (UPDATE_METADATA {["updatedAt" := JStr t1]});;
     await t2 ← getNow;
     let newVersion : JsObj :=
       list_to_map
         [("cid", JStr cid);
          ("timestamp", JStr t2);
          ("author", prop (metadata state) "owner")] in
     let updatedState :=
       withVersionHistory
         (default [] (versionHistory state) ++ [newVersion]) state in
     dispatch (SET_DOCUMENT updatedState);;
     ret cid)
    (λ error, throw error).

Definition loadFromIPFS (cid : string) : Async Remote unit :=
  tryCatch
    (await loadedState ← callService (loadDocumentFromIPFS cid);
     dispatch (RESTORE_FROM_IPFS loadedState);;
     ret tt)
    (λ error, throw error).
End Provider.

(** ** Column letters ([columnToIndex] of the export service) *)

(** [column.charCodeAt(i)] *)
Definition charCode (c : ascii) : Z := Z.of_nat (nat_of_ascii c).

(** The loop [for (i = 0; i < column.length; i++) result = result * 26 + ...]
    started with the accumulator [result], in exact integer arithmetic.  The
    numbers of the program are double-precision floats: [Double.columnLoop]
    below is the same loop with every operation rounded as the machine
    rounds it, and the two agree as long as the exact value stays within
    [2^53]. *)
Fixpoint columnLoop (result : Z) (column : string) : Z :=
  match column with
  | EmptyString => result
  | String c rest => columnLoop (result * 26 + (charCode c - 64)) rest
  end.

Definition columnToIndex (column : string) : Z := columnLoop 0 column - 1.

(** *** The same in the numbers of the program

    A JavaScript number is an IEEE 754 double.  The loop starts from an
    integer and multiplies by 26 and adds integers, so all its numbers are
    integers or infinities; every operation gives the double nearest to the
    exact result, the one with the even significand when two are equally
    near. *)

Module Double.

Inductive Number : Type :=
  | Finite (n : Z)
  | Infinity (negative : bool).

(** The double nearest to the natural number [a].  Up to [2^53] every
    integer is a double; from there on the doubles are the multiples of
    [ulp], the power of two that leaves 53 binary digits. *)
Definition roundMagnitude (a : Z) : Z :=
  if a <? 2 ^ 53 then a
  else
    let ulp := 2 ^ (Z.log2 a - 52) in
    let q := a / ulp in
    let r := a mod ulp in
    if 2 * r <? ulp then q * ulp
    else if ulp <? 2 * r then (q + 1) * ulp
    else if Z.even q then q * ulp else (q + 1) * ulp.

(** Rounding is symmetric in the sign; what rounds to [2^1024] or more is
    an infinity. *)
Definition round (z : Z) : Number :=
  let m := roundMagnitude (Z.abs z) in
  if 2 ^ 1024 <=? m then Infinity (z <? 0) else Finite (Z.sgn z * m).

(** [x * 26] *)
Definition times26 (x : Number) : Number :=
  match x with
  | Finite n => round (n * 26)
  | Infinity negative => Infinity negative
  end.

(** [x + k] for an integer [k] *)
Definition plus (x : Number) (k : Z) : Number :=
  match x with
  | Finite n => round (n + k)
  | Infinity negative => Infinity negative
  end.

Fixpoint columnLoop (result : Number) (column : string) : Number :=
  match column with
  | EmptyString => result
  | String c rest => columnLoop (plus (times26 result) (charCode c - 64)) rest
  end.

Definition columnToIndex (column : string) : Number :=
  plus (columnLoop (Finite 0) column) (-1).

End Double.

(** ** The storage service

    [src/services/ipfsDocumentService] is not part of the sources at hand.
    The module below models it from the specification: the document is
    serialized to a JSON tree that matches the schema, the tree is put into a
    content-addressed store which answers with the content identifier, and a
    load fetches the tree of an identifier and deserializes it. *)

Inductive Json : Type :=
  | WNull
  | WBool (b : bool)
  | WNum (n : Z)
  | WStr (s : string)
  | WArr (l : list Json)
  | WObj (o : gmap string Json).

Module IpfsDocumentService.

(** Modelled from the spec: the serializer of the missing storage service,
    as the JSON tree of a JavaScript value.  A property whose value is
    [undefined] is left out, [undefined] in an array becomes [null], and
    [undefined] itself has no JSON form. *)
Fixpoint stringify (v : JsVal) : option Json :=
  match v with
  | JUndefined => None
  | JNull => Some WNull
  | JBool b => Some (WBool b)
  | JNum n => Some (WNum n)
  | JStr s => Some (WStr s)
  | JArr l => Some (WArr ((λ x, default WNull (stringify x)) <$> l))
  | JObj o => Some (WObj (omap stringify o))
  end.

(** Modelled from the spec: the deserializer of the missing storage
    service, from the JSON tree back to a JavaScript value. *)
Fixpoint parse (w : Json) : JsVal :=
  match w with
  | WNull => JNull
  | WBool b => JBool b
  | WNum n => JNum n
  | WStr s => JStr s
  | WArr l => JArr (parse <$> l)
  | WObj o => JObj (parse <$> o)
  end.

(** Modelled from the spec: a value with a lossless JSON form, that is one
    in which [undefined] occurs nowhere. *)
Fixpoint jsonSafe (v : JsVal) : bool :=
  match v with
  | JUndefined => false
  | JNull | JBool _ | JNum _ | JStr _ => true
  | JArr l => forallb jsonSafe l
  | JObj o => bool_decide (map_Forall (λ _ b, b = true) (jsonSafe <$> o))
  end.

(** Modelled from the spec: what stays of a value when the properties that
    hold [undefined] are left out, at every depth.  Reading an absent
    property gives [undefined] as well, so no read of the value tells it
    from what stays. *)
Fixpoint definedPart (v : JsVal) : JsVal :=
  match v with
  | JArr l => JArr (definedPart <$> l)
  | JObj o =>
      JObj (omap (λ x, match x with
                       | JUndefined => None
                       | _ => Some (definedPart x)
                       end) o)
  | _ => v
  end.

(** The same for the value of a property: none when it is [undefined]. *)
Definition definedValue (v : JsVal) : option JsVal :=
  match v with
  | JUndefined => None
  | _ => Some (definedPart v)
  end.

Definition definedProps (o : JsObj) : JsObj := omap definedValue o.

(** Modelled from the spec: no array of the value holds [undefined]. *)
Fixpoint arraysDefined (v : JsVal) : bool :=
  match v with
  | JArr l =>
      forallb (λ x, match x with
                    | JUndefined => false
                    | _ => arraysDefined x
                    end) l
  | JObj o => bool_decide (map_Forall (λ _ b, b = true) (arraysDefined <$> o))
  | _ => true
  end.

(** The number of constructors of a value, for induction on values. *)
Fixpoint jsize (v : JsVal) : nat :=
  match v with
  | JArr l => S (foldr plus 0%nat (jsize <$> l))
  | JObj o => S (map_fold (λ _ n acc, (n + acc)%nat) 0%nat (jsize <$> o))
  | _ => 1%nat
  end.

(** *** A document as the JavaScript object it is at run time

    Modelled from the spec: the serialized document is a tree that matches
    the schema, field names and nesting included.  [sheetToJs] and
    [docToJs] give that tree for the records of the schema, an optional
    field being absent when it has no value; [sheetOfJs] and [docOfJs] read
    it back and fail on a tree of another shape. *)

Definition asStr (v : JsVal) : option string :=
  match v with JStr s => Some s | _ => None end.
Definition asBool (v : JsVal) : option bool :=
  match v with JBool b => Some b | _ => None end.
Definition asNum (v : JsVal) : option Z :=
  match v with JNum n => Some n | _ => None end.
Definition asObj (v : JsVal) : option JsObj :=
  match v with JObj o => Some o | _ => None end.
Definition asArr (v : JsVal) : option (list JsVal) :=
  match v with JArr l => Some l | _ => None end.

(** Every value of an object decoded by [dec]. *)
Definition mapAll {A} (dec : JsVal → option A) (o : JsObj)
  : option (gmap string A) :=
  if decide (map_Forall (λ _ v, is_Some (dec v)) o)
  then Some (omap dec o) else None.

Definition asObjMap (v : JsVal) : option (gmap string JsObj) :=
  asObj v ≫= mapAll asObj.
Definition asBoolMap (v : JsVal) : option (gmap string bool) :=
  asObj v ≫= mapAll asBool.
Definition asObjList (v : JsVal) : option (list JsObj) :=
  asArr v ≫= mapM asObj.

(** A required property and an optional one. *)
Definition reqField {A} (dec : JsVal → option A) (o : JsObj) (k : string)
  : option A :=
  o !! k ≫= dec.
Definition optField {A} (dec : JsVal → option A) (o : JsObj) (k : string)
  : option (option A) :=
  match o !! k with
  | None => Some None
  | Some v => Some <$> dec v
  end.

(** An optional property is present only when it has a value. *)
Definition setOpt (k : string) (v : option JsVal) (o : JsObj) : JsObj :=
  match v with
  | Some x => <[k := x]> o
  | None => o
  end.

Definition sheetProps (s : SheetData) : JsObj :=
    <["sheetId" := JStr (sheetId s)]> (
    <["name" := JStr (name s)]> (
    setOpt "color" (JStr <$> color s) (
    <["visible" := JBool (visible s)]> (
    setOpt "protected" (JBool <$> protected s) (
    setOpt "protectionPassword" (JStr <$> protectionPassword s) (
    setOpt "cellLocks" ((λ m, JObj (JBool <$> m)) <$> cellLocks s) (
    <["grid" := JObj (grid s)]> (
    <["cells" := JObj (JObj <$> cells s)]> (
    <["images" := JArr (JObj <$> images s)]> (
    <["shapes" := JArr (JObj <$> shapes s)]> (
    <["charts" := JArr (JObj <$> charts s)]> (
    <["links" := JArr (JObj <$> links s)]> (
    <["symbols" := JArr (JObj <$> symbols s)]> (
    <["conditionalFormatting" :=
        JArr (JObj <$> conditionalFormatting s)]> (
    setOpt "namedRanges" (JObj <$> namedRanges s) (
    setOpt "sortState" (JObj <$> sortState s) (
    setOpt "filterState" (JObj <$> filterState s) (
    setOpt "zoom" (JNum <$> zoom s) (
    setOpt "scrollPosition" (JObj <$> scrollPosition s)
    ∅))))))))))))))))))).

Definition sheetToJs (s : SheetData) : JsVal := JObj (sheetProps s).

Definition sheetOfJs (v : JsVal) : option SheetData :=
  o ← asObj v;
  f1 ← reqField asStr o "sheetId";
  f2 ← reqField asStr o "name";
  f3 ← optField asStr o "color";
  f4 ← reqField asBool o "visible";
  f5 ← optField asBool o "protected";
  f6 ← optField asStr o "protectionPassword";
  f7 ← optField asBoolMap o "cellLocks";
  f8 ← reqField asObj o "grid";
  f9 ← reqField asObjMap o "cells";
  f10 ← reqField asObjList o "images";
  f11 ← reqField asObjList o "shapes";
  f12 ← reqField asObjList o "charts";
  f13 ← reqField asObjList o "links";
  f14 ← reqField asObjList o "symbols";
  f15 ← reqField asObjList o "conditionalFormatting";
  f16 ← optField asObj o "namedRanges";
  f17 ← optField asObj o "sortState";
  f18 ← optField asObj o "filterState";
  f19 ← optField asNum o "zoom";
  f20 ← optField asObj o "scrollPosition";
  Some (mkSheet f1 f2 f3 f4 f5 f6 f7 f8 f9 f10 f11 f12 f13 f14 f15 f16 f17
          f18 f19 f20).

Definition docProps (st : DocumentState) : JsObj :=
    <["documentId" := JStr (documentId st)]> (
    <["metadata" := JObj (metadata st)]> (
    <["sheets" := JArr (sheetToJs <$> sheets st)]> (
    <["activeSheetId" := JStr (activeSheetId st)]> (
    setOpt "settings" (JObj <$> settings st) (
    setOpt "versionHistory"
      ((λ l, JArr (JObj <$> l)) <$> versionHistory st)
    ∅))))).

Definition docToJs (st : DocumentState) : JsVal := JObj (docProps st).

Definition docOfJs (v : JsVal) : option DocumentState :=
  o ← asObj v;
  f1 ← reqField asStr o "documentId";
  f2 ← reqField asObj o "metadata";
  f3 ← reqField (λ x, asArr x ≫= mapM sheetOfJs) o "sheets";
  f4 ← reqField asStr o "activeSheetId";
  f5 ← optField asObj o "settings";
  f6 ← optField asObjList o "versionHistory";
  Some (mkDoc f1 f2 f3 f4 f5 f6).

(** Modelled from the spec: of what makes a document valid, the part that
    bears on the round trip.  The schema gives every array an element type
    (objects, strings, numbers), so no array of a valid document holds
    [undefined]; an optional property may hold it, as [sparkline] does after
    SET_SPARKLINE with [null]. *)
Definition validState (st : DocumentState) : bool := arraysDefined (docToJs st).

(** A document in which, beyond that, no property holds [undefined]. *)
Definition holdsNoUndefined (st : DocumentState) : bool :=
  jsonSafe (docToJs st).

(** A sheet and a document without the properties that hold [undefined];
    the fields that are not property maps cannot hold it. *)
Definition definedSheet (s : SheetData) : SheetData :=
  mkSheet (sheetId s) (name s) (color s) (visible s) (protected s)
    (protectionPassword s) (cellLocks s)
    (definedProps (grid s)) (definedProps <$> cells s)
    (definedProps <$> images s) (definedProps <$> shapes s)
    (definedProps <$> charts s) (definedProps <$> links s)
    (definedProps <$> symbols s) (definedProps <$> conditionalFormatting s)
    (definedProps <$> namedRanges s) (definedProps <$> sortState s)
    (definedProps <$> filterState s) (zoom s)
    (definedProps <$> scrollPosition s).

Definition definedDoc (st : DocumentState) : DocumentState :=
  mkDoc (documentId st) (definedProps (metadata st))
    (definedSheet <$> sheets st) (activeSheetId st)
    (definedProps <$> settings st)
    ((λ l : list JsObj, definedProps <$> l) <$> versionHistory st).


(** *** The content-addressed store *)

(** Modelled from the spec: an error of the missing storage service,
    [new Error(message)] as far as a caller reads it, an object with the
    property [message]. *)
Definition newError (message : string) : JsVal :=
  JObj {["message" := JStr message]}.

(** Modelled from the spec: the store of the missing storage service, the
    contents it holds by identifier and whether it can be reached. *)
Record Ipfs : Type := mkIpfs {
  online : bool;
  blobs : gmap string Json
}.

(** Modelled from the spec: [uploadDocumentToIPFS] of the missing storage
    service.  [cidOf] derives the content identifier from the content;
    the call rejects when the store cannot be reached. *)
Definition uploadDocumentToIPFS (cidOf : Json → string)
    (state : DocumentState) (r : Ipfs) : Outcome string * Ipfs :=
  if online r then
    match stringify (docToJs state) with
    | Some content =>
        (Resolved (cidOf content),
         mkIpfs (online r) (<[cidOf content := content]> (blobs r)))
    | None => (Rejected (newError "document has no JSON form"), r)
    end
  else (Rejected (newError "store unreachable"), r).

(** Modelled from the spec: [loadDocumentFromIPFS] of the missing storage
    service. *)
Definition loadDocumentFromIPFS (cid : string) (r : Ipfs)
  : Outcome DocumentState * Ipfs :=
  if online r then
    match blobs r !! cid with
    | Some content =>
        match docOfJs (parse content) with
        | Some st => (Resolved st, r)
        | None => (Rejected (newError "content is not a document"), r)
        end
    | None => (Rejected (newError "unknown content identifier"), r)
    end
  else (Rejected (newError "store unreachable"), r).

End IpfsDocumentService.

(** ** Sequences of actions and the properties stated about them *)

(** A step is an action together with the clock reading of its reduction. *)
Fixpoint runActions (st : DocumentState)
    (steps : list (string * DocumentAction)) : DocumentState :=
  match steps with
  | [] => st
  | (now, a) :: rest => runActions (documentReducer now st a) rest
  end.

(** The state after each action of a sequence, in order. *)
Fixpoint statesAfter (st : DocumentState)
    (steps : list (string * DocumentAction)) : list DocumentState :=
  match steps with
  | [] => []
  | (now, a) :: rest =>
      documentReducer now st a :: statesAfter (documentReducer now st a) rest
  end.

Definition isSheetListAction (a : DocumentAction) : bool :=
  match a with
  | ADD_SHEET _ | REMOVE_SHEET _ => true
  | _ => false
  end.

(** [metadata.sheetCount === sheets.length] *)
Definition sheetCountOk (st : DocumentState) : bool :=
  match metadata st !! "sheetCount" with
  | Some (JNum n) => Z.eqb n (Z.of_nat (length (sheets st)))
  | _ => false
  end.

(** Some sheet of the document has the identifier [id]. *)
Definition hasSheet (st : DocumentState) (id : string) : bool :=
  existsb (λ s, String.eqb (sheetId s) id) (sheets st).

(** [activeSheetId] names a sheet of the document, or there is no sheet. *)
Definition activeSheetOk (st : DocumentState) : bool :=
  match sheets st with
  | [] => true
  | _ => hasSheet st (activeSheetId st)
  end.

(** The actions after which [activeSheetId] depends on the payload: the
    payload has to name an existing sheet, carry a consistent document, or
    add the sheet that the identifier of an empty document already names. *)
Definition keepsActiveSheet (st : DocumentState) (a : DocumentAction) : bool :=
  match a with
  | SET_ACTIVE_SHEET id => activeSheetOk (withActiveSheetId id st)
  | SET_DOCUMENT p | RESTORE_FROM_IPFS p => activeSheetOk p
  | ADD_SHEET p =>
      match sheets st with
      | [] => String.eqb (sheetId p) (activeSheetId st)
      | _ => true
      end
  | _ => true
  end.

Fixpoint admissibleRun (st : DocumentState)
    (steps : list (string * DocumentAction)) : bool :=
  match steps with
  | [] => true
  | (now, a) :: rest =>
      keepsActiveSheet st a && admissibleRun (documentReducer now st a) rest
  end.

(** No sheet with the identifier [sid] holds, in the collection [proj], an
    entity with the identifier [id]; this is so in particular when no sheet
    has the identifier [sid]. *)
Definition noEntity (proj : SheetData → list JsObj) (st : DocumentState)
    (sid id : string) : bool :=
  forallb
    (λ sheet, negb (String.eqb (sheetId sheet) sid)
              || forallb (λ e, negb (idIs e id)) (proj sheet))
    (sheets st).

(** The update and remove actions whose target does not exist. *)
Definition targetMissing (st : DocumentState) (a : DocumentAction) : bool :=
  match a with
  | REMOVE_SHEET sid
  | RENAME_SHEET sid _
  | UPDATE_CELL sid _ _
  | UPDATE_CELLS sid _
  | SET_CELL_STYLE sid _ _
  | UPDATE_GRID_CONFIG sid _
  | SET_ROW_SIZE sid _ _
  | SET_COLUMN_SIZE sid _ _
  | SET_DATA_VALIDATION sid _ _
  | SET_SPARKLINE sid _ _
  | PROTECT_SHEET sid _ _
  | LOCK_CELLS sid _ _ => negb (hasSheet st sid)
  | UPDATE_IMAGE sid id _ | REMOVE_IMAGE sid id => noEntity images st sid id
  | UPDATE_SHAPE sid id _ | REMOVE_SHAPE sid id => noEntity shapes st sid id
  | UPDATE_CHART sid id _ | REMOVE_CHART sid id => noEntity charts st sid id
  | REMOVE_CONDITIONAL_FORMAT sid id =>
      noEntity conditionalFormatting st sid id
  | SET_DOCUMENT _ | UPDATE_METADATA _ | ADD_SHEET _ | SET_ACTIVE_SHEET _
  | ADD_IMAGE _ _ | ADD_SHAPE _ _ | ADD_CHART _ _
  | ADD_CONDITIONAL_FORMAT _ _ | RESTORE_FROM_IPFS _ => false
  end.

(** ** The column scheme in the words of the specification *)

Definition alphabet : string := "ABCDEFGHIJKLMNOPQRSTUVWXYZ".

Fixpoint indexIn (c : ascii) (s : string) : option nat :=
  match s with
  | EmptyString => None
  | String d rest => if Ascii.eqb c d then Some 0%nat else S <$> indexIn c rest
  end.

(** The value of a letter: [A] has the value 1, [Z] the value 26. *)
Definition charValue (c : ascii) : Z :=
  match indexIn c alphabet with
  | Some i => Z.of_nat i + 1
  | None => 0
  end.

Definition isUpper (c : ascii) : bool :=
  match indexIn c alphabet with
  | Some _ => true
  | None => false
  end.

Definition upperString (s : string) : bool :=
  forallb isUpper (list_ascii_of_string s).

(** The sum of [charValue_i * 26^(n-1-i)] over the positions [i] of the [n]
    letters. *)
Definition base26Sum (s : string) : Z :=
  let n := String.length s in
  foldr Z.add 0
    ((λ i, from_option charValue 0 (String.get i s)
           * 26 ^ Z.of_nat (n - 1 - i)) <$> seq 0 n).

(** ** Sample data *)

Definition sampleState : DocumentState := createInitialState "t0" 1 2.

Definition sampleSheet (id : string) : SheetData :=
  mkSheet id id None true None None None ∅ ∅ [] [] [] [] [] [] None None None
    None None.

(** A sheet that stores a password and locks the cell A1. *)
Definition lockedSheet : SheetData :=
  mkSheet "s1" "Budget" None true (Some false) (Some "5f4dcc3b")
    (Some {["A1" := true]}) ∅
    {["A1" := {["value" := JStr "x";
                "style" := JObj {["bold" := JBool true]}]}]}
    [{["id" := JStr "img-1"]}] [] [] [] [] [] None None None None None.

Definition lockedState : DocumentState :=
  mkDoc "doc-1" {["owner" := JStr "ann"; "sheetCount" := JNum 1]}
    [lockedSheet] "s1" None None.

(** The locked state after the sparkline of A1 is cleared: the cell holds
    the property [sparkline] with the value [undefined]. *)
Definition clearedState : DocumentState :=
  documentReducer "t1" lockedState (SET_SPARKLINE "s1" "A1" JNull).

(** ** Classes of actions *)

(** The sheet an action is addressed to: the [sheetId] of its payload. *)
Definition actionTarget (a : DocumentAction) : option string :=
  match a with
  | RENAME_SHEET sid _
  | UPDATE_CELL sid _ _
  | UPDATE_CELLS sid _
  | SET_CELL_STYLE sid _ _
  | ADD_IMAGE sid _
  | UPDATE_IMAGE sid _ _
  | REMOVE_IMAGE sid _
  | ADD_SHAPE sid _
  | UPDATE_SHAPE sid _ _
  | REMOVE_SHAPE sid _
  | ADD_CHART sid _
  | UPDATE_CHART sid _ _
  | REMOVE_CHART sid _
  | UPDATE_GRID_CONFIG sid _
  | SET_ROW_SIZE sid _ _
  | SET_COLUMN_SIZE sid _ _
  | ADD_CONDITIONAL_FORMAT sid _
  | REMOVE_CONDITIONAL_FORMAT sid _
  | SET_DATA_VALIDATION sid _ _
  | SET_SPARKLINE sid _ _
  | PROTECT_SHEET sid _ _
  | LOCK_CELLS sid _ _ => Some sid
  | SET_DOCUMENT _ | UPDATE_METADATA _ | ADD_SHEET _ | REMOVE_SHEET _
  | SET_ACTIVE_SHEET _ | RESTORE_FROM_IPFS _ => None
  end.

(** The actions whose payload is a whole document. *)
Definition replacesDocument (a : DocumentAction) : bool :=
  match a with
  | SET_DOCUMENT _ | RESTORE_FROM_IPFS _ => true
  | _ => false
  end.

(** The actions whose branch writes [updatedAt]. *)
Definition stampsUpdatedAt (a : DocumentAction) : bool :=
  match a with
  | SET_DOCUMENT _ | RESTORE_FROM_IPFS _ | SET_ACTIVE_SHEET _
  | ADD_SHAPE _ _ | UPDATE_SHAPE _ _ _ | REMOVE_SHAPE _ _ => false
  | _ => true
  end.

(** ** The save handler ([useDocumentSaveHandler]) *)

(** What [handleSave] returns: [{success: true, cid}] or
    [{success: false, error: error.message}]. *)
Inductive SaveResult : Type :=
  | SaveSucceeded (cid : string)
  | SaveFailed (error : JsVal).

(** [error.message] for the caught value, which the handler declares as
    [any]: reading a property of [undefined] or [null] throws a TypeError
    (no value); an object gives what it holds under [message]; a boolean, a
    number, a string and an array have no such property. *)
Definition errorMessage (error : JsVal) : option JsVal :=
  match error with
  | JUndefined | JNull => None
  | JObj o => Some (prop o "message")
  | JBool _ | JNum _ | JStr _ | JArr _ => Some JUndefined
  end.

(** [handleSave] over the [saveToIPFS] of the context.  [typeError] is the
    TypeError the engine throws when a property of [undefined] or [null] is
    read; the catch block has no handler around it, so the error leaves
    [handleSave]. *)
Definition handleSave {Remote : Type} (typeError : JsVal)
    (saveToIPFS : Async Remote string) : Async Remote SaveResult :=
  tryCatch
    (bind saveToIPFS (λ cid, ret (SaveSucceeded cid)))
    (λ error,
       match errorMessage error with
       | Some message => ret (SaveFailed message)
       | None => throw typeError
       end).

(** ** The auto-save effect of the provider *)

(** [state.settings?.k] *)
Definition settingsProp (state : DocumentState) (k : string) : JsVal :=
  match settings state with
  | Some o => prop o k
  | None => JUndefined
  end.

(** The effect arms its timer unless
    [!autoSaveEnabled || !state.settings?.autoSave]. *)
Definition autoSaveArmed (autoSaveEnabled : bool) (state : DocumentState)
  : bool :=
  negb (negb autoSaveEnabled || negb (truthy (settingsProp state "autoSave"))).

(** [(state.settings?.autoSaveInterval || 30) * 1000], in milliseconds; the
    product is defined here for a number, which the schema says the interval
    is. *)
Definition autoSaveDelay (state : DocumentState) : option Z :=
  match jsOr (settingsProp state "autoSaveInterval") (JNum 30) with
  | JNum n => Some (n * 1000)
  | _ => None
  end.

(** ** The sheet and the cells of an export *)

(** [sheets.find(s => s.sheetId === activeSheetId) || sheets[0]], the sheet
    that [exportDocumentToCSV] and [exportDocumentToPDF] write; without one
    they return at once. *)
Definition exportSheet (state : DocumentState) : option SheetData :=
  match activeSheet state with
  | Some sheet => Some sheet
  | None => head (sheets state)
  end.







(** ** The data range of an inserted chart ([handleInsertChart]) *)

(** [String.fromCharCode(n)] for a code unit below 256. *)
Definition fromCharCode (n : Z) : string :=
  String (ascii_of_nat (Z.to_nat n)) EmptyString.

(** The template literal that names the selected range. *)
Definition chartDataRange (startRow endRow startCol endCol : Z) : string :=
  fromCharCode (65 + startCol) +:+ pretty (startRow + 1) +:+ ":"
  +:+ fromCharCode (65 + endCol) +:+ pretty (endRow + 1).

(** ** The sync hook ([useSpreadsheetDocumentSync])

    The hook reads the live editing data of the spreadsheet context and
    dispatches what the document misses.  Each effect is modelled by the
    list of the actions it dispatches, in order, for the state it was
    rendered with; its sheet is [state.sheets[0]]. *)

(** [a === b] when one of the two is a primitive value; two objects are
    compared by identity, which the model does not have. *)
Definition strictEq (a b : JsVal) : bool :=
  match a, b with
  | JUndefined, JUndefined | JNull, JNull => true
  | JBool x, JBool y => Bool.eqb x y
  | JNum x, JNum y => Z.eqb x y
  | JStr x, JStr y => String.eqb x y
  | _, _ => false
  end.

(** [String(value)] of a string or a number. *)
Definition toStringPrim (value : JsVal) : string :=
  match value with
  | JStr s => s
  | JNum n => pretty n
  | _ => ""
  end.

(** [activeSheet?.sheetId || 'sheet-1'] *)
Definition syncSheetId (state : DocumentState) : string :=
  match head (sheets state) with
  | Some activeSheet =>
      if String.eqb (sheetId activeSheet) "" then "sheet-1"
      else sheetId activeSheet
  | None => "sheet-1"
  end.

(** The effect on [spreadsheet.cellData], given as its entries in order:
    the calls [updateCell(sheetId, key, data)] it makes, as the pairs of
    [key] and [data]. *)
Definition cellDataUpdates (activeSheet : SheetData)
    (cellData : list (string * JsVal)) : list (string * JsObj) :=
  omap
    (λ '(key, value),
       match value with
       | JStr _ | JNum _ =>
           if match cells activeSheet !! key with
              | None => true
              | Some currentCell =>
                  negb (strictEq (prop currentCell "value") value)
              end
           then Some (key, {["value" := JStr (toStringPrim value);
                             "type" := JStr "string"]})
           else None
       | _ => None
       end)
    cellData.

Definition syncCellData (cellData : list (string * JsVal))
    (state : DocumentState) : list DocumentAction :=
  match head (sheets state) with
  | None => []
  | Some activeSheet =>
      (λ up, UPDATE_CELL (syncSheetId state) up.1 up.2)
        <$> cellDataUpdates activeSheet cellData
  end.

(** The image object that the effect on [spreadsheet.floatingImages] hands
    to [addImage]. *)
Definition syncedImage (img : JsObj) : JsObj :=
  list_to_map
    [("id", prop img "id");
     ("src", prop img "src");
     ("x", prop img "x");
     ("y", prop img "y");
     ("width", prop img "width");
     ("height", prop img "height");
     ("rotation", prop img "rotation");
     ("opacity", prop img "opacity");
     ("layer", jsOr (prop img "zIndex") (JNum 0))].

(** The floating images for which [activeSheet.images.find(i => i.id ===
    img.id)] finds nothing, as the objects handed to [addImage]. *)
Definition missingImages (activeSheet : SheetData)
    (floatingImages : list JsObj) : list JsObj :=
  omap
    (λ img,
       if existsb (λ i, strictEq (prop i "id") (prop img "id"))
            (images activeSheet)
       then None
       else Some (syncedImage img))
    floatingImages.

Definition syncImages (floatingImages : list JsObj) (state : DocumentState)
  : list DocumentAction :=
  match head (sheets state) with
  | None => []
  | Some activeSheet =>
      ADD_IMAGE (syncSheetId state) <$> missingImages activeSheet floatingImages
  end.

(** ** The steps of the help overlay ([FeatureInfoOverlay]) *)

(** [steps[i]] for a number [i]. *)
Definition stepAt {A : Type} (steps : list A) (i : Z) : option A :=
  if i <? 0 then None else steps !! Z.to_nat i.

(** What the component renders: nothing when it is closed, the current step
    when it is open; reading [step.icon] of a step that does not exist
    throws. *)
Inductive Rendered (A : Type) : Type :=
  | RendersNothing
  | RendersStep (step : A)
  | Throws.
Arguments RendersNothing {A}.
Arguments RendersStep {A} step.
Arguments Throws {A}.

Definition renderOverlay {A : Type} (isOpen : bool) (steps : list A)
    (currentStep : Z) : Rendered A :=
  if negb isOpen then RendersNothing
  else match stepAt steps currentStep with
       | Some step => RendersStep step
       | None => Throws
       end.

(** [handleNext]: the next value of [currentStep], and whether [onClose] is
    called. *)
Definition handleNext {A : Type} (steps : list A) (currentStep : Z)
  : Z * bool :=
  if currentStep <? Z.of_nat (length steps) - 1
  then (currentStep + 1, false)
  else (currentStep, true).

Definition handlePrevious (currentStep : Z) : Z :=
  if currentStep >? 0 then currentStep - 1 else currentStep.

Inductive OverlayClick : Type :=
  | ClickNext
  | ClickPrevious.

(** The value of [currentStep] after a series of clicks; the state starts at
    [useState(0)] and outlives a close. *)
Definition afterClicks {A : Type} (steps : list A)
    (clicks : list OverlayClick) : Z :=
  foldl
    (λ currentStep click,
       match click with
       | ClickNext => (handleNext steps currentStep).1
       | ClickPrevious => handlePrevious currentStep
       end)
    0 clicks.

(** * Properties *)

(** ** Column letters *)

Lemma charValue_code c : isUpper c = true → charValue c = charCode c - 64.
Proof.
  destruct c as [[] [] [] [] [] [] [] []]; vm_compute; congruence.
Qed.

Lemma base26Sum_cons c rest :
  base26Sum (String c rest)
  = charValue c * 26 ^ Z.of_nat (String.length rest) + base26Sum rest.
Proof.
  unfold base26Sum. cbn [String.length seq fmap list_fmap foldr String.get].
  rewrite <- (fmap_S_seq 0), <- list_fmap_compose.
  f_equal.
  - cbn [from_option]. do 3 f_equal. lia.
  - f_equal. apply list_fmap_ext. intros i x _. cbn [compose].
    do 3 f_equal. lia.
Qed.

Lemma columnLoop_sum s : ∀ acc,
  upperString s = true →
  columnLoop acc s = acc * 26 ^ Z.of_nat (String.length s) + base26Sum s.
Proof.
  induction s as [|c rest IH]; intros acc Hup.
  - cbn. unfold base26Sum. cbn. lia.
  - cbn in Hup. apply andb_prop in Hup as [Hc Hrest].
    cbn [columnLoop]. rewrite IH by assumption.
    rewrite base26Sum_cons, <- charValue_code by assumption.
    cbn [String.length]. rewrite Nat2Z.inj_succ, Z.pow_succ_r by lia. lia.
Qed.

(** In exact arithmetic the loop gives the sum of the specification on
    every string of uppercase letters. *)
Lemma columnToIndex_sum s :
  upperString s = true → columnToIndex s = base26Sum s - 1.
Proof.
  intros Hup. unfold columnToIndex. rewrite columnLoop_sum by assumption. lia.
Qed.

Lemma isUpper_code c : isUpper c = true → 65 ≤ charCode c ≤ 90.
Proof.
  destruct c as [[] [] [] [] [] [] [] []]; vm_compute;
    (discriminate || (intros _; split; discriminate)).
Qed.

Lemma columnLoop_pos s : ∀ acc,
  upperString s = true → 0 ≤ acc →
  acc ≤ columnLoop acc s ∧ (s ≠ EmptyString → 1 ≤ columnLoop acc s).
Proof.
  induction s as [|c s IH]; intros acc Hup Hacc; cbn; [done|].
  unfold upperString in Hup. cbn in Hup.
  apply andb_prop in Hup as [Hc Hs]. apply isUpper_code in Hc.
  destruct (IH (acc * 26 + (charCode c - 64)) Hs) as [Hle _]; [lia|].
  split; [lia|]. intros _. lia.
Qed.

(** An integer up to [2^53] is a double. *)
Lemma round_exact z : Z.abs z ≤ 2 ^ 53 → Double.round z = Double.Finite z.
Proof.
  intros Hz. unfold Double.round.
  assert (Double.roundMagnitude (Z.abs z) = Z.abs z) as ->.
  { unfold Double.roundMagnitude.
    destruct (Z.ltb_spec (Z.abs z) (2 ^ 53)) as [|Hge]; [done|].
    assert (Z.abs z = 2 ^ 53) as -> by lia. by vm_compute. }
  assert (2 ^ 53 < 2 ^ 1024) as Hlt by (apply Z.pow_lt_mono_r; lia).
  destruct (Z.leb_spec (2 ^ 1024) (Z.abs z)) as [Hbig|_]; [lia|].
  f_equal. lia.
Qed.

(** As long as the exact value stays within [2^53] the loop of the program
    computes it. *)
Lemma columnLoop_exact s : ∀ acc,
  upperString s = true → 0 ≤ acc → columnLoop acc s ≤ 2 ^ 53 →
  Double.columnLoop (Double.Finite acc) s = Double.Finite (columnLoop acc s).
Proof.
  induction s as [|c s IH]; intros acc Hup Hacc Hle; [done|].
  cbn [columnLoop Double.columnLoop] in *.
  unfold upperString in Hup. cbn in Hup.
  apply andb_prop in Hup as [Hc Hs]. apply isUpper_code in Hc.
  destruct (columnLoop_pos s (acc * 26 + (charCode c - 64)) Hs) as [Hge _];
    [lia|].
  cbn [Double.times26]. rewrite round_exact by lia.
  cbn [Double.plus]. rewrite round_exact by lia.
  apply IH; [done | lia | done].
Qed.

Lemma columnToIndex_exact s :
  upperString s = true → base26Sum s ≤ 2 ^ 53 →
  Double.columnToIndex s = Double.Finite (base26Sum s - 1).
Proof.
  intros Hup Hle. unfold Double.columnToIndex.
  assert (columnLoop 0 s = base26Sum s) as Hsum
    by (rewrite columnLoop_sum by done; lia).
  destruct (columnLoop_pos s 0 Hup) as [Hge _]; [done|].
  rewrite columnLoop_exact by (done || lia).
  cbn [Double.plus]. rewrite round_exact by lia. by rewrite Hsum.
Qed.

(** The value of a name of [n] letters is below [2 * 26^n]. *)
Lemma columnLoop_bound s : ∀ acc,
  upperString s = true → 0 ≤ acc →
  columnLoop acc s + 2 ≤ (acc + 2) * 26 ^ Z.of_nat (String.length s).
Proof.
  induction s as [|c s IH]; intros acc Hup Hacc.
  - cbn. lia.
  - cbn [columnLoop String.length].
    unfold upperString in Hup. cbn in Hup.
    apply andb_prop in Hup as [Hc Hs]. apply isUpper_code in Hc.
    specialize (IH (acc * 26 + (charCode c - 64)) Hs ltac:(lia)).
    rewrite Nat2Z.inj_succ, Z.pow_succ_r by lia.
    assert (0 ≤ 26 ^ Z.of_nat (String.length s)) as Hpow
      by (apply Z.pow_nonneg; lia).
    nia.
Qed.

Lemma base26Sum_eleven_letters s :
  upperString s = true → (String.length s ≤ 11)%nat → base26Sum s ≤ 2 ^ 53.
Proof.
  intros Hup Hlen.
  pose proof (columnLoop_bound s 0 Hup ltac:(lia)) as Hb.
  rewrite columnLoop_sum in Hb by done.
  assert (26 ^ Z.of_nat (String.length s) ≤ 26 ^ 11) as Hpow
    by (apply Z.pow_le_mono_r; lia).
  change (26 ^ 11) with 3670344486987776 in Hpow.
  change (2 ^ 53) with 9007199254740992. lia.
Qed.

(** C9: on every string of uppercase letters whose base-26 sum of letter
    values ([A] = 1, weights [26^(n-1-i)]) is at most [2^53], and so on every
    name of up to 11 letters, [columnToIndex] as the program computes it, in
    double-precision numbers, is that sum minus one; "A" gives 0, "Z" 25,
    "AA" 26 and "AZ" 51. *)
Theorem columnToIndex_base26_up_to_2_53 :
  (∀ s, upperString s = true → base26Sum s ≤ 2 ^ 53 →
        Double.columnToIndex s = Double.Finite (base26Sum s - 1))
  ∧ (∀ s, upperString s = true → (String.length s ≤ 11)%nat →
          Double.columnToIndex s = Double.Finite (base26Sum s - 1))
  ∧ Double.columnToIndex "A" = Double.Finite 0
  ∧ Double.columnToIndex "Z" = Double.Finite 25
  ∧ Double.columnToIndex "AA" = Double.Finite 26
  ∧ Double.columnToIndex "AZ" = Double.Finite 51.
Proof.
  split; [exact columnToIndex_exact|].
  split; [| repeat split; by vm_compute].
  intros s Hup Hlen. apply columnToIndex_exact; [done|].
  by apply base26Sum_eleven_letters.
Qed.

(** Beyond [2^53] the sum is no longer what comes out: for twelve letters Z
    the program gives 99246114928149472, the sum minus one is
    99246114928149461. *)
Lemma columnToIndex_rounds_at_twelve_letters :
  upperString "ZZZZZZZZZZZZ" = true
  ∧ "ZZZZZZZZZZZZ"%string ≠ ""%string
  ∧ Double.columnToIndex "ZZZZZZZZZZZZ" = Double.Finite 99246114928149472
  ∧ base26Sum "ZZZZZZZZZZZZ" - 1 = 99246114928149461
  ∧ Double.columnToIndex "ZZZZZZZZZZZZ"
    ≠ Double.Finite (base26Sum "ZZZZZZZZZZZZ" - 1).
Proof.
  split; [by vm_compute|]. split; [done|].
  split; [by vm_compute|]. split; [by vm_compute|].
  by vm_compute.
Qed.

(** ** The list of sheets *)

Lemma sheetCountOk_after_sheet_action now st a :
  isSheetListAction a = true → sheetCountOk (documentReducer now st a) = true.
Proof.
  destruct a; try discriminate; intros _; unfold sheetCountOk; cbn.
  - rewrite lookup_insert_ne by done. rewrite lookup_insert_eq.
    rewrite length_app. cbn. apply Z.eqb_eq. lia.
  - rewrite lookup_insert_ne by done. rewrite lookup_insert_eq.
    apply Z.eqb_eq. reflexivity.
Qed.

Lemma sheetCountOk_statesAfter st steps :
  forallb (λ step, isSheetListAction (snd step)) steps = true →
  Forall (λ st', sheetCountOk st' = true) (statesAfter st steps).
Proof.
  revert st. induction steps as [|[now a] rest IH]; intros st Hall; cbn.
  - constructor.
  - cbn in Hall. apply andb_prop in Hall as [Ha Hrest].
    constructor.
    + by apply sheetCountOk_after_sheet_action.
    + by apply IH.
Qed.

(** C3: from a state in which [metadata.sheetCount] is [sheets.length], the
    equation holds in the state before and in the state after every action
    of any sequence of ADD_SHEET and REMOVE_SHEET actions. *)
Theorem sheetCount_invariant st steps :
  sheetCountOk st = true →
  forallb (λ step, isSheetListAction (snd step)) steps = true →
  Forall (λ st', sheetCountOk st' = true) (st :: statesAfter st steps).
Proof.
  intros Hst Hall. constructor; [assumption|].
  by apply sheetCountOk_statesAfter.
Qed.

Lemma sheetCount_invariant_witness :
  Forall (λ st', sheetCountOk st' = true)
    (sampleState
     :: statesAfter sampleState
          [("t1", ADD_SHEET (sampleSheet "s2"));
           ("t2", REMOVE_SHEET "sheet-1");
           ("t3", REMOVE_SHEET "s2")]).
Proof.
  apply sheetCount_invariant; reflexivity.
Defined.

Lemma firstSheetId_head l :
  firstSheetId l = match l with [] => ""%string | s :: _ => sheetId s end.
Proof.
  destruct l as [|s l]; [reflexivity|]. unfold firstSheetId. cbn.
  destruct (String.eqb_spec (sheetId s) ""); congruence.
Qed.

(** C4: REMOVE_SHEET keeps, in their order, exactly the sheets whose
    identifier differs from the payload; when the payload is the active
    identifier, [activeSheetId] becomes the identifier of the first sheet
    left, or the empty string when none is left; otherwise it stays. *)
Theorem remove_sheet_reassigns_active now st id :
  let st' := documentReducer now st (REMOVE_SHEET id) in
  (∀ s, s ∈ sheets st' ↔ s ∈ sheets st ∧ sheetId s ≠ id)
  ∧ sheets st' `sublist_of` sheets st
  ∧ activeSheetId st' =
      if String.eqb (activeSheetId st) id
      then match sheets st' with [] => ""%string | s :: _ => sheetId s end
      else activeSheetId st.
Proof.
  cbn. split; [|split].
  - intros s. rewrite list_elem_of_filter. tauto.
  - apply sublist_filter.
  - by rewrite firstSheetId_head.
Qed.

(** The two cases of the specification: of the sheets S1 (active) and S2,
    removing S1 makes S2 active; removing the last sheet leaves the empty
    string. *)
Example remove_active_sheet_examples :
  let st := withSheets [sampleSheet "S1"; sampleSheet "S2"]
              (withActiveSheetId "S1" sampleState) in
  activeSheetId (documentReducer "t1" st (REMOVE_SHEET "S1")) = "S2"%string
  ∧ activeSheetId
      (runActions st [("t1", REMOVE_SHEET "S1"); ("t2", REMOVE_SHEET "S2")])
    = ""%string.
Proof. split; reflexivity. Qed.

(** ** The contents of a sheet *)

Lemma mapSheet_lookup id f l i :
  mapSheet id f l !! i
  = (λ sheet, if String.eqb (sheetId sheet) id then f sheet else sheet)
      <$> l !! i.
Proof. apply list_lookup_fmap. Qed.

(** C5: UPDATE_CELL leaves the sheets with another identifier alone; in a
    target sheet only [cells] changes, the cell at the key reads, field by
    field, the payload where the payload has the field and the previous cell
    (the empty cell when there was none) elsewhere, and every other cell is
    unchanged. *)
Theorem update_cell_merges now st sid cellKey data i sheet :
  sheets st !! i = Some sheet →
  ∃ sheet',
    sheets (documentReducer now st (UPDATE_CELL sid cellKey data)) !! i
      = Some sheet'
    ∧ if String.eqb (sheetId sheet) sid then
        sheet' = withCells (cells sheet') sheet
        ∧ (∃ cell',
             cells sheet' !! cellKey = Some cell'
             ∧ ∀ field,
                 cell' !! field =
                 match data !! field with
                 | Some v => Some v
                 | None => default ∅ (cells sheet !! cellKey) !! field
                 end)
        ∧ (∀ other, other ≠ cellKey →
             cells sheet' !! other = cells sheet !! other)
      else sheet' = sheet.
Proof.
  intros Hi. cbn. rewrite mapSheet_lookup, Hi. cbn.
  eexists. split; [reflexivity|].
  destruct (String.eqb (sheetId sheet) sid); [|reflexivity].
  cbn. split; [reflexivity|]. split.
  - eexists. split; [apply lookup_insert_eq|].
    intros field. unfold mergeCell. rewrite lookup_union.
    destruct (data !! field) as [v|]; cbn.
    + by destruct (default ∅ (cells sheet !! cellKey) !! field).
    + by destruct (default ∅ (cells sheet !! cellKey) !! field).
  - intros other Hne. by rewrite lookup_insert_ne.
Qed.

Lemma update_cell_merges_witness :
  ∃ sheet',
    sheets (documentReducer "t1" lockedState
              (UPDATE_CELL "s1" "A1" {["value" := JStr "y"]})) !! 0%nat
      = Some sheet'
    ∧ if String.eqb (sheetId lockedSheet) "s1" then
        sheet' = withCells (cells sheet') lockedSheet
        ∧ (∃ cell',
             cells sheet' !! "A1" = Some cell'
             ∧ ∀ field,
                 cell' !! field =
                 match ({["value" := JStr "y"]} : JsObj) !! field with
                 | Some v => Some v
                 | None => default ∅ (cells lockedSheet !! "A1") !! field
                 end)
        ∧ (∀ other, other ≠ "A1" →
             cells sheet' !! other = cells lockedSheet !! other)
      else sheet' = lockedSheet.
Proof.
  apply (update_cell_merges "t1" lockedState "s1" "A1" _ 0%nat lockedSheet).
  reflexivity.
Defined.

(** The case of the specification: the cell [{value: "x", style: {bold:
    true}}] updated with [{value: "y"}] keeps its style. *)
Example update_cell_keeps_style :
  cells <$> sheets (documentReducer "t1" lockedState
                      (UPDATE_CELL "s1" "A1" {["value" := JStr "y"]}))
  = [ {["A1" := {["value" := JStr "y";
                  "style" := JObj {["bold" := JBool true]}]}]} ].
Proof. vm_compute. reflexivity. Qed.

Lemma protect_sheet_at now st sid isProtected password i sheet :
  sheets st !! i = Some sheet → sheetId sheet = sid →
  ∃ sheet',
    sheets (documentReducer now st (PROTECT_SHEET sid isProtected password))
      !! i = Some sheet'
    ∧ protectionPassword sheet' = password
    ∧ protected sheet' = Some isProtected.
Proof.
  intros Hi Hid. cbn. rewrite mapSheet_lookup, Hi. cbn.
  apply String.eqb_eq in Hid. rewrite Hid.
  eexists. split; [reflexivity|]. by cbn.
Qed.

(** C10: PROTECT_SHEET stores the password of the payload in the target
    sheet whatever the sheet stored before; without a password in the
    payload the stored password is gone; [protectSheet] dispatches the
    password it is given, absent or not. *)
Theorem protect_sheet_overwrites_password :
  (∀ now st sid isProtected password i sheet,
     sheets st !! i = Some sheet → sheetId sheet = sid →
     ∃ sheet',
       sheets (documentReducer now st (PROTECT_SHEET sid isProtected password))
         !! i = Some sheet'
       ∧ protectionPassword sheet' = password
       ∧ protected sheet' = Some isProtected)
  ∧ (∀ now st sid isProtected stored i sheet,
     sheets st !! i = Some sheet → sheetId sheet = sid →
     protectionPassword sheet = Some stored →
     ∃ sheet',
       sheets (documentReducer now st (PROTECT_SHEET sid isProtected None))
         !! i = Some sheet'
       ∧ protectionPassword sheet' = None)
  ∧ (∀ (Remote : Type) (w : World Remote) sid isProtected password,
     protectSheet sid isProtected password w
     = (Resolved tt,
        mkWorld
          (documentReducer (clock w (tick w)) (current w)
             (PROTECT_SHEET sid isProtected password))
          (remote w) (clock w) (S (tick w)))).
Proof.
  split; [|split].
  - intros now st sid p pw i sheet Hi Hid.
    exact (protect_sheet_at now st sid p pw i sheet Hi Hid).
  - intros now st sid p stored i sheet Hi Hid _.
    destruct (protect_sheet_at now st sid p None i sheet Hi Hid)
      as (sheet' & ? & ? & _).
    eauto.
  - reflexivity.
Qed.

(** A stored password does not survive a call without a password. *)
Example protect_sheet_clears_password :
  protectionPassword <$> sheets lockedState = [Some "5f4dcc3b"%string]
  ∧ protectionPassword
      <$> sheets (documentReducer "t1" lockedState
                    (PROTECT_SHEET "s1" true None))
    = [None].
Proof. split; reflexivity. Qed.

(** ** Locks *)

(** The sheet a query looks at is the first sheet of the state with the
    identifier. *)
Lemma findSheet_first st i sheet :
  sheets st !! i = Some sheet →
  (∀ j other, (j < i)%nat → sheets st !! j = Some other →
              sheetId other ≠ sheetId sheet) →
  findSheet st (sheetId sheet) = Some sheet.
Proof.
  unfold findSheet. revert i.
  induction (sheets st) as [|s l IH]; intros i Hi Hfirst; [done|].
  destruct i as [|i]; cbn in *.
  - injection Hi as ->. by rewrite String.eqb_refl.
  - destruct (String.eqb (sheetId s) (sheetId sheet)) eqn:Hs.
    + apply String.eqb_eq in Hs.
      by destruct (Hfirst 0%nat s ltac:(lia) eq_refl).
    + apply (IH i Hi). intros j other Hj Hother.
      apply (Hfirst (S j) other); [lia | done].
Qed.

Lemma findSheet_none st id :
  (∀ sheet, sheet ∈ sheets st → sheetId sheet ≠ id) → findSheet st id = None.
Proof.
  unfold findSheet. intros Hno.
  induction (sheets st) as [|s l IH]; [done|]. cbn.
  destruct (String.eqb (sheetId s) id) eqn:Hs.
  - apply String.eqb_eq in Hs. destruct (Hno s); [by left | done].
  - apply IH. intros sheet Hin. apply Hno. by right.
Qed.

(** No cell reference is a name of [Object.prototype]: each of those names
    has a lower-case letter or an underscore. *)
Lemma cellReference_not_inherited key :
  cellReference key = true → key ∉ objectPrototype.
Proof.
  intros Href Hin. unfold objectPrototype in Hin.
  repeat (apply elem_of_cons in Hin as [->|Hin]; [by vm_compute in Href|]).
  by apply elem_of_nil in Hin.
Qed.

(** C6: for the sheet of the state that has the identifier (the first one,
    should several have it) [isCellLocked] returns [true] exactly when the
    sheet is protected or its [cellLocks] holds true at the cell key.  So
    every cell of a protected sheet is locked whatever [cellLocks] holds, and
    in a sheet that is not protected exactly the cells with a true entry
    return [true].  What is returned otherwise is [false], except for a key
    that names a property of [Object.prototype] and has no entry in the
    [cellLocks] object of a sheet that is not protected: there the inherited
    value comes back, which is not [true] but truthy.  For every other key,
    and so for every cell reference, the answer is a boolean, and the same
    holds of its truthiness.  With no sheet of the identifier the answer is
    [false]. *)
Theorem isCellLocked_iff :
  (∀ st i sheet cellKey,
     sheets st !! i = Some sheet →
     (∀ j other, (j < i)%nat → sheets st !! j = Some other →
                 sheetId other ≠ sheetId sheet) →
     (isCellLocked st (sheetId sheet) cellKey = LockBool true ↔
      protected sheet = Some true
      ∨ ∃ locks, cellLocks sheet = Some locks ∧ locks !! cellKey = Some true)
     ∧ (protected sheet = Some true →
        isCellLocked st (sheetId sheet) cellKey = LockBool true)
     ∧ (protected sheet ≠ Some true →
        (isCellLocked st (sheetId sheet) cellKey = LockBool true ↔
         ∃ locks, cellLocks sheet = Some locks ∧ locks !! cellKey = Some true))
     ∧ (isCellLocked st (sheetId sheet) cellKey = LockInherited cellKey ↔
        protected sheet ≠ Some true
        ∧ cellKey ∈ objectPrototype
        ∧ ∃ locks, cellLocks sheet = Some locks ∧ locks !! cellKey = None)
     ∧ (isCellLocked st (sheetId sheet) cellKey = LockBool true
        ∨ isCellLocked st (sheetId sheet) cellKey = LockBool false
        ∨ isCellLocked st (sheetId sheet) cellKey = LockInherited cellKey)
     ∧ (cellKey ∉ objectPrototype →
        (isCellLocked st (sheetId sheet) cellKey = LockBool true
         ∨ isCellLocked st (sheetId sheet) cellKey = LockBool false)
        ∧ (answersLocked (isCellLocked st (sheetId sheet) cellKey) = true ↔
           protected sheet = Some true
           ∨ ∃ locks, cellLocks sheet = Some locks
                      ∧ locks !! cellKey = Some true)))
  ∧ (∀ st id cellKey,
     (∀ sheet, sheet ∈ sheets st → sheetId sheet ≠ id) →
     isCellLocked st id cellKey = LockBool false).
Proof.
  split.
  - intros st i sheet cellKey Hi Hfirst. unfold isCellLocked, readLock.
    rewrite (findSheet_first st i sheet Hi Hfirst). clear Hi Hfirst.
    destruct (protected sheet) as [[]|]; cbn;
      destruct (cellLocks sheet) as [locks|]; cbn;
      try destruct (locks !! cellKey) as [[]|] eqn:Hk; cbn;
      try case_bool_decide;
      (repeat split; try congruence; eauto;
       try (intros [?|(? & ? & ?)]; congruence);
       try (intros (? & ? & ?); congruence);
       try (intros (? & ? & ? & ? & ?); congruence);
       try (intros _; by eauto);
       try (cbn; intros ?; discriminate)).
  - intros st id cellKey Hno. unfold isCellLocked.
    by rewrite (findSheet_none st id Hno).
Qed.

(** The case of the specification: with [protected = false] and
    [cellLocks = {A1: true}] only A1 returns [true]; once the sheet is
    protected every cell does.  The key [constructor] is no cell and has no
    entry: the function that every object inherits under that name comes
    back. *)
Example lock_precedence_examples :
  isCellLocked lockedState "s1" "A1" = LockBool true
  ∧ isCellLocked lockedState "s1" "B2" = LockBool false
  ∧ isCellLocked
      (documentReducer "t1" lockedState (PROTECT_SHEET "s1" true None))
      "s1" "B2" = LockBool true
  ∧ isCellLocked lockedState "s1" "constructor" = LockInherited "constructor".
Proof. repeat split; reflexivity. Qed.

(** ** Actions whose target does not exist *)

Lemma withSheets_same st : withSheets (sheets st) st = st.
Proof. by destruct st. Qed.

Lemma mapSheet_fixed sid f l :
  (∀ sheet, sheet ∈ l → sheetId sheet = sid → f sheet = sheet) →
  mapSheet sid f l = l.
Proof.
  intros Hf. unfold mapSheet. rewrite <- (list_fmap_id l) at 2.
  apply list_fmap_ext. intros i sheet Hi. cbn.
  destruct (String.eqb_spec (sheetId sheet) sid) as [Heq|]; [|reflexivity].
  apply Hf; [|assumption]. by eapply list_elem_of_lookup_2.
Qed.

Lemma hasSheet_false st sid :
  hasSheet st sid = false →
  ∀ sheet, sheet ∈ sheets st → sheetId sheet ≠ sid.
Proof.
  unfold hasSheet. intros Hex sheet Hin Heq.
  assert (existsb (λ s, String.eqb (sheetId s) sid) (sheets st) = true)
    as Htrue; [|congruence].
  apply existsb_exists. exists sheet. split.
  - by apply list_elem_of_In.
  - by apply String.eqb_eq.
Qed.

Lemma mapSheet_absent st sid f :
  negb (hasSheet st sid) = true → mapSheet sid f (sheets st) = sheets st.
Proof.
  intros H. apply negb_true_iff in H. apply mapSheet_fixed.
  intros sheet Hin Heq. by destruct (hasSheet_false st sid H sheet Hin).
Qed.

Lemma noEntity_spec proj st sid id :
  noEntity proj st sid id = true →
  ∀ sheet, sheet ∈ sheets st → sheetId sheet = sid →
  ∀ e, e ∈ proj sheet → idIs e id = false.
Proof.
  unfold noEntity. intros Hall sheet Hin Heq e He.
  rewrite forallb_forall in Hall.
  specialize (Hall sheet (proj1 (list_elem_of_In _ _) Hin)).
  apply String.eqb_eq in Heq. rewrite Heq in Hall. cbn in Hall.
  rewrite forallb_forall in Hall.
  specialize (Hall e (proj1 (list_elem_of_In _ _) He)).
  by apply negb_true_iff in Hall.
Qed.

Lemma fmap_unmatched (l : list JsObj) id (updates : JsObj) :
  (∀ e, e ∈ l → idIs e id = false) →
  (λ e, if idIs e id then updates ∪ e else e) <$> l = l.
Proof.
  intros Hno. rewrite <- (list_fmap_id l) at 2.
  apply list_fmap_ext. intros i e Hi. cbn.
  by rewrite (Hno e (list_elem_of_lookup_2 _ _ _ Hi)).
Qed.

Lemma filter_unmatched (l : list JsObj) id :
  (∀ e, e ∈ l → idIs e id = false) →
  List.filter (λ e, negb (idIs e id)) l = l.
Proof.
  induction l as [|e l IH]; intros Hno; [reflexivity|]. cbn.
  rewrite (Hno e) by apply list_elem_of_here. cbn. f_equal.
  apply IH. intros e' He'. apply Hno. by apply list_elem_of_further.
Qed.

(** A branch that maps or filters an entity list of the target sheets, when
    no entity matches: [unchanged] is the lemma for the list operation and
    [Hmiss] the fact that nothing matches. *)
Ltac unmatched_entities unchanged Hmiss :=
  rewrite mapSheet_fixed, withSheets_same; [reflexivity|];
  let sheet := fresh "sheet" in
  intros sheet ? ?;
  rewrite unchanged by eauto using noEntity_spec;
  by destruct sheet.

(** C7, as amended: an update or remove action whose sheet identifier names
    no sheet, or whose entity identifier names no entity of the target
    sheet, changes no sheet and no entity list.  The reducer returns the
    input state with [metadata.updatedAt] set to the current time;
    UPDATE_SHAPE and REMOVE_SHAPE return the input state itself; REMOVE_SHEET
    also recomputes [sheetCount] and resets [activeSheetId] when the absent
    identifier is the active one.  The reducer is a total function: it
    returns a state for every state and action. *)
Theorem missing_target_refreshes_timestamp_only now st a :
  targetMissing st a = true →
  documentReducer now st a =
  match a with
  | UPDATE_SHAPE _ _ _ | REMOVE_SHAPE _ _ => st
  | REMOVE_SHEET id =>
      withMetadata
        (<["updatedAt" := JStr now]>
           (<["sheetCount" := JNum (Z.of_nat (length (sheets st)))]>
              (metadata st)))
        (withActiveSheetId
           (if String.eqb (activeSheetId st) id
            then firstSheetId (sheets st) else activeSheetId st) st)
  | _ => touch now st
  end.
Proof.
  intros Hmiss.
  destruct a; try discriminate Hmiss; cbn in Hmiss; try reflexivity;
    cbn [documentReducer];
    try (rewrite (mapSheet_absent st _ _ Hmiss), withSheets_same; reflexivity).
  - (* REMOVE_SHEET *)
    apply negb_true_iff in Hmiss.
    assert (filter (λ s, sheetId s ≠ payload) (sheets st) = sheets st) as ->.
    { pose proof (hasSheet_false st payload Hmiss) as Hne.
      induction (sheets st) as [|s l IH]; [reflexivity|].
      rewrite filter_cons_True by (apply Hne; constructor).
      f_equal. apply IH. intros s' Hs'. apply Hne. by constructor. }
    by rewrite withSheets_same.
  - (* UPDATE_IMAGE *) unmatched_entities fmap_unmatched Hmiss.
  - (* REMOVE_IMAGE *) unmatched_entities filter_unmatched Hmiss.
  - (* UPDATE_CHART *) unmatched_entities fmap_unmatched Hmiss.
  - (* REMOVE_CHART *) unmatched_entities filter_unmatched Hmiss.
  - (* REMOVE_CONDITIONAL_FORMAT *) unmatched_entities filter_unmatched Hmiss.
Qed.

Lemma missing_target_refreshes_timestamp_only_witness :
  documentReducer "t1" lockedState (UPDATE_IMAGE "s1" "img-9" ∅)
  = touch "t1" lockedState.
Proof.
  apply (missing_target_refreshes_timestamp_only "t1" lockedState
           (UPDATE_IMAGE "s1" "img-9" ∅)).
  reflexivity.
Defined.

(** C7, as stated, fails: UPDATE_IMAGE for a sheet that does not exist
    returns a state that differs from its input in [metadata.updatedAt]. *)
Lemma missing_target_is_not_identity :
  targetMissing sampleState (UPDATE_IMAGE "nope" "img-1" ∅) = true
  ∧ documentReducer "t1" sampleState (UPDATE_IMAGE "nope" "img-1" ∅)
    ≠ sampleState.
Proof.
  split; [reflexivity|]. intros Heq.
  apply (f_equal (λ st, metadata st !! "updatedAt")) in Heq.
  vm_compute in Heq. discriminate.
Qed.

(** ** The active sheet *)

Lemma activeSheetOk_spec st :
  activeSheetOk st = true ↔
  (sheets st ≠ [] → ∃ s, s ∈ sheets st ∧ sheetId s = activeSheetId st).
Proof.
  unfold activeSheetOk, hasSheet. destruct (sheets st) as [|s0 l] eqn:Hs.
  - split; [intros _ Hne; by destruct Hne | done].
  - rewrite existsb_exists. split.
    + intros (s & Hin & Heq) _. exists s. split.
      * by apply list_elem_of_In.
      * by apply String.eqb_eq.
    + intros H. destruct H as (s & Hin & Heq); [done|]. exists s. split.
      * by apply list_elem_of_In.
      * by apply String.eqb_eq.
Qed.

Lemma existsb_mapSheet sid f l id :
  (∀ s, sheetId (f s) = sheetId s) →
  existsb (λ s, String.eqb (sheetId s) id) (mapSheet sid f l)
  = existsb (λ s, String.eqb (sheetId s) id) l.
Proof.
  intros Hf. induction l as [|s l IH]; [reflexivity|]. cbn.
  rewrite <- IH. f_equal.
  destruct (String.eqb (sheetId s) sid); by rewrite ?Hf.
Qed.

Lemma activeSheetOk_mapSheet now st sid f :
  (∀ s, sheetId (f s) = sheetId s) →
  activeSheetOk (touch now (withSheets (mapSheet sid f (sheets st)) st))
  = activeSheetOk st.
Proof.
  intros Hf. unfold activeSheetOk, hasSheet. cbn.
  rewrite existsb_mapSheet by assumption.
  by destruct (sheets st).
Qed.

Lemma activeSheetOk_step now st a :
  activeSheetOk st = true → keepsActiveSheet st a = true →
  activeSheetOk (documentReducer now st a) = true.
Proof.
  intros Hok Hkeep.
  destruct a; cbn [documentReducer keepsActiveSheet] in *;
    try assumption;
    try (rewrite activeSheetOk_mapSheet; [assumption | by intros []]).
  - (* ADD_SHEET *)
    unfold activeSheetOk, hasSheet in *. cbn.
    destruct (sheets st) as [|s l]; cbn in *.
    + by rewrite Hkeep.
    + rewrite existsb_app. cbn in Hok.
      destruct (String.eqb (sheetId s) (activeSheetId st)); [done|].
      cbn in *. by rewrite Hok.
  - (* REMOVE_SHEET *)
    apply activeSheetOk_spec. cbn. intros Hne.
    destruct (String.eqb_spec (activeSheetId st) payload) as [Hact|Hact].
    + destruct (filter _ (sheets st)) as [|s l] eqn:Hf; [done|].
      exists s. split; [constructor|].
      unfold firstSheetId. cbn.
      by destruct (String.eqb_spec (sheetId s) "").
    + apply activeSheetOk_spec in Hok.
      * destruct Hok as (s & Hin & Heq).
        exists s. split; [|assumption].
        apply list_elem_of_filter. split; [congruence|assumption].
      * intros Hnil. rewrite Hnil in Hne. by apply Hne.
Qed.

Lemma activeSheetOk_initial now ms1 ms2 :
  activeSheetOk (createInitialState now ms1 ms2) = true.
Proof. reflexivity. Qed.

Lemma activeSheetOk_run st steps :
  activeSheetOk st = true → admissibleRun st steps = true →
  activeSheetOk (runActions st steps) = true.
Proof.
  revert st. induction steps as [|[now a] rest IH]; intros st Hok Hadm.
  - assumption.
  - cbn in *. apply andb_prop in Hadm as [Ha Hrest].
    apply IH; [|assumption]. by apply activeSheetOk_step.
Qed.

(** C8, as amended: in every state reached from the initial state by
    actions of which each SET_ACTIVE_SHEET names an existing sheet, each
    SET_DOCUMENT and RESTORE_FROM_IPFS carries a document whose
    [activeSheetId] names one of its sheets, and each ADD_SHEET to a document
    without sheets adds the sheet that [activeSheetId] names, [activeSheetId]
    is the identifier of a sheet whenever there is a sheet. *)
Theorem active_sheet_valid_on_admissible_runs now ms1 ms2 steps :
  admissibleRun (createInitialState now ms1 ms2) steps = true →
  sheets (runActions (createInitialState now ms1 ms2) steps) ≠ [] →
  ∃ s, s ∈ sheets (runActions (createInitialState now ms1 ms2) steps)
       ∧ sheetId s
         = activeSheetId (runActions (createInitialState now ms1 ms2) steps).
Proof.
  intros Hadm. apply activeSheetOk_spec.
  apply activeSheetOk_run; [apply activeSheetOk_initial | assumption].
Qed.

Lemma active_sheet_valid_on_admissible_runs_witness :
  ∃ s, s ∈ sheets (runActions (createInitialState "t0" 1 2)
                     [("t1", ADD_SHEET (sampleSheet "s2"));
                      ("t2", REMOVE_SHEET "sheet-1");
                      ("t3", SET_ACTIVE_SHEET "s2")])
       ∧ sheetId s
         = activeSheetId (runActions (createInitialState "t0" 1 2)
                     [("t1", ADD_SHEET (sampleSheet "s2"));
                      ("t2", REMOVE_SHEET "sheet-1");
                      ("t3", SET_ACTIVE_SHEET "s2")]).
Proof.
  apply (active_sheet_valid_on_admissible_runs "t0" 1 2
           [("t1", ADD_SHEET (sampleSheet "s2"));
            ("t2", REMOVE_SHEET "sheet-1");
            ("t3", SET_ACTIVE_SHEET "s2")]).
  - reflexivity.
  - vm_compute. discriminate.
Defined.

(** C8, as stated, fails: after SET_ACTIVE_SHEET with an identifier that no
    sheet has, and after ADD_SHEET to a document whose last sheet was
    removed, there are sheets and [activeSheetId] names none of them. *)
Lemma active_sheet_can_dangle :
  (sheets (runActions sampleState [("t1", SET_ACTIVE_SHEET "ghost")]) ≠ []
   ∧ ¬ ∃ s, s ∈ sheets (runActions sampleState
                          [("t1", SET_ACTIVE_SHEET "ghost")])
            ∧ sheetId s
              = activeSheetId (runActions sampleState
                                 [("t1", SET_ACTIVE_SHEET "ghost")]))
  ∧ (sheets (runActions sampleState
               [("t1", REMOVE_SHEET "sheet-1");
                ("t2", ADD_SHEET (sampleSheet "s2"))]) ≠ []
     ∧ ¬ ∃ s, s ∈ sheets (runActions sampleState
                            [("t1", REMOVE_SHEET "sheet-1");
                             ("t2", ADD_SHEET (sampleSheet "s2"))])
              ∧ sheetId s
                = activeSheetId (runActions sampleState
                                   [("t1", REMOVE_SHEET "sheet-1");
                                    ("t2", ADD_SHEET (sampleSheet "s2"))])).
Proof.
  split; (split; [vm_compute; discriminate|]);
    intros (s & Hin & Heq); vm_compute in Hin;
    apply list_elem_of_singleton in Hin; subst s; vm_compute in Heq;
    discriminate.
Qed.

(** ** Saving and loading *)

Lemma saveToIPFS_rejected {Remote : Type}
    (upload : DocumentState → Remote → Outcome string * Remote)
    (doc : DocumentState) (w : World Remote) (error : JsVal) (rem : Remote) :
  upload doc (remote w) = (Rejected error, rem) →
  saveToIPFS upload doc w
  = (Rejected error, mkWorld (current w) rem (clock w) (tick w)).
Proof.
  intros Hup. unfold saveToIPFS, tryCatch, bind, callService, throw.
  rewrite Hup. reflexivity.
Qed.

(** C2: when the upload of a save rejects, the save rejects with the same
    error and the state held by the store is the state [doc] it held
    before, its version history included. *)
Theorem failed_save_leaves_state {Remote : Type}
    (upload : DocumentState → Remote → Outcome string * Remote)
    (doc : DocumentState) (w : World Remote) (error : JsVal) (rem : Remote) :
  current w = doc →
  upload doc (remote w) = (Rejected error, rem) →
  fst (saveToIPFS upload doc w) = Rejected error
  ∧ current (snd (saveToIPFS upload doc w)) = doc
  ∧ versionHistory (current (snd (saveToIPFS upload doc w)))
    = versionHistory doc.
Proof.
  intros Hcur Hup. rewrite (saveToIPFS_rejected _ _ _ _ _ Hup). cbn.
  by rewrite Hcur.
Qed.

Lemma failed_save_leaves_state_witness :
  fst (saveToIPFS
         (IpfsDocumentService.uploadDocumentToIPFS (λ _, "cid-1"%string))
         lockedState
         (mkWorld lockedState (IpfsDocumentService.mkIpfs false ∅)
            (λ _, "t1"%string) 0%nat))
  = Rejected (IpfsDocumentService.newError "store unreachable")
  ∧ current
      (snd (saveToIPFS
              (IpfsDocumentService.uploadDocumentToIPFS (λ _, "cid-1"%string))
              lockedState
              (mkWorld lockedState (IpfsDocumentService.mkIpfs false ∅)
                 (λ _, "t1"%string) 0%nat)))
    = lockedState
  ∧ versionHistory
      (current
         (snd (saveToIPFS
                 (IpfsDocumentService.uploadDocumentToIPFS
                    (λ _, "cid-1"%string))
                 lockedState
                 (mkWorld lockedState (IpfsDocumentService.mkIpfs false ∅)
                    (λ _, "t1"%string) 0%nat))))
    = versionHistory lockedState.
Proof.
  apply (failed_save_leaves_state
           (IpfsDocumentService.uploadDocumentToIPFS (λ _, "cid-1"%string))
           lockedState
           (mkWorld lockedState (IpfsDocumentService.mkIpfs false ∅)
              (λ _, "t1"%string) 0%nat)
           (IpfsDocumentService.newError "store unreachable")
           (IpfsDocumentService.mkIpfs false ∅));
    reflexivity.
Defined.

(** A save that succeeds commits the captured state with one more entry in
    its version history. *)
Lemma saveToIPFS_resolved {Remote : Type}
    (upload : DocumentState → Remote → Outcome string * Remote)
    (doc : DocumentState) (w : World Remote) (cid : string) (rem : Remote) :
  upload doc (remote w) = (Resolved cid, rem) →
  fst (saveToIPFS upload doc w) = Resolved cid
  ∧ current (snd (saveToIPFS upload doc w))
    = withVersionHistory
        (default [] (versionHistory doc)
         ++ [list_to_map
               [("cid", JStr cid);
                ("timestamp", JStr (clock w (S (S (tick w)))));
                ("author", prop (metadata doc) "owner")]]) doc.
Proof.
  intros Hup. unfold saveToIPFS, tryCatch, bind, callService, dispatch, ret.
  rewrite Hup. cbn. split; reflexivity.
Qed.

(** ** The storage service: the round trip through JSON *)

Section JsonRoundTrip.
Import IpfsDocumentService.

Lemma sum_lookup_le (m : gmap string nat) k n :
  m !! k = Some n →
  (n ≤ map_fold (λ _ n acc, (n + acc)%nat) 0%nat m)%nat.
Proof.
  intros Hk. rewrite (map_fold_delete_L _ _ k n m); [lia | | assumption].
  intros. lia.
Qed.

Lemma jsize_arr_elem l x : x ∈ l → (jsize x < jsize (JArr l))%nat.
Proof.
  cbn [jsize]. induction 1 as [x l | x y l _ IH]; cbn; lia.
Qed.

Lemma jsize_obj_elem (o : JsObj) k x :
  o !! k = Some x → (jsize x < jsize (JObj o))%nat.
Proof.
  intros Hk. cbn [jsize]. apply Nat.lt_succ_r.
  apply (sum_lookup_le _ k). by rewrite lookup_fmap, Hk.
Qed.

Lemma JsVal_nested_ind (P : JsVal → Prop) :
  P JUndefined → P JNull → (∀ b, P (JBool b)) → (∀ n, P (JNum n)) →
  (∀ s, P (JStr s)) →
  (∀ l, (∀ x, x ∈ l → P x) → P (JArr l)) →
  (∀ o : JsObj, (∀ k x, o !! k = Some x → P x) → P (JObj o)) →
  ∀ v, P v.
Proof.
  intros Hu Hn Hb Hz Hs Ha Ho v.
  remember (jsize v) as n eqn:Hn'. revert v Hn'.
  induction n as [n IH] using lt_wf_ind. intros v ->.
  destruct v; auto.
  - apply Ha. intros x Hx. eapply IH; [|reflexivity]. by apply jsize_arr_elem.
  - apply Ho. intros k x Hk. eapply IH; [|reflexivity].
    by eapply jsize_obj_elem.
Qed.

Lemma jsonSafe_arr l :
  jsonSafe (JArr l) = true → ∀ x, x ∈ l → jsonSafe x = true.
Proof.
  cbn [jsonSafe]. rewrite forallb_forall. intros H x Hx.
  apply H. by apply list_elem_of_In.
Qed.

Lemma jsonSafe_obj (o : JsObj) :
  jsonSafe (JObj o) = true ↔ ∀ k x, o !! k = Some x → jsonSafe x = true.
Proof.
  cbn [jsonSafe]. rewrite bool_decide_eq_true, map_Forall_fmap.
  reflexivity.
Qed.

Lemma parse_stringify v :
  jsonSafe v = true → ∃ w, stringify v = Some w ∧ parse w = v.
Proof.
  induction v as [| | b | n | s | l IH | o IH] using JsVal_nested_ind;
    intros Hsafe; try discriminate; try (eexists; split; reflexivity).
  - exists (WArr ((λ x, default WNull (stringify x)) <$> l)).
    split; [reflexivity|]. cbn [parse]. f_equal.
    rewrite <- list_fmap_compose. rewrite <- (list_fmap_id l) at 2.
    apply list_fmap_ext. intros i x Hi.
    assert (x ∈ l) as Hx by by eapply list_elem_of_lookup_2.
    destruct (IH x Hx (jsonSafe_arr l Hsafe x Hx)) as (w & Hw & Hp).
    cbn [compose]. rewrite Hw. cbn. by rewrite Hp.
  - exists (WObj (omap stringify o)).
    split; [reflexivity|]. cbn [parse]. f_equal.
    apply map_eq. intros k. rewrite lookup_fmap, lookup_omap.
    destruct (o !! k) as [x|] eqn:Hk; [|reflexivity]. cbn.
    destruct (IH k x Hk (proj1 (jsonSafe_obj o) Hsafe k x Hk)) as (w & Hw & Hp).
    by rewrite Hw; cbn; rewrite Hp.
Qed.










Lemma definedPart_obj o : definedPart (JObj o) = JObj (definedProps o).
Proof. reflexivity. Qed.

Lemma prop_definedProps o k : prop (definedProps o) k = definedPart (prop o k).
Proof.
  unfold prop, definedProps. rewrite lookup_omap.
  destruct (o !! k) as [[]|]; reflexivity.
Qed.










Lemma definedPart_arr l : definedPart (JArr l) = JArr (definedPart <$> l).
Proof. reflexivity. Qed.






Lemma definedPart_idemp v : definedPart (definedPart v) = definedPart v.
Proof.
  induction v as [| | b | n | s | l IH | o IH] using JsVal_nested_ind;
    try reflexivity.
  - rewrite !definedPart_arr. f_equal. rewrite <- list_fmap_compose.
    apply list_fmap_ext. intros i x Hi. apply IH.
    by eapply list_elem_of_lookup_2.
  - rewrite !definedPart_obj. f_equal. apply map_eq. intros k.
    unfold definedProps. rewrite !lookup_omap.
    destruct (o !! k) as [x|] eqn:Hk; [|reflexivity]. cbn.
    specialize (IH k x Hk).
    destruct x; cbn [definedValue mbind option_bind]; try reflexivity;
      rewrite <- IH at 2; reflexivity.
Qed.

Lemma definedProps_idemp o : definedProps (definedProps o) = definedProps o.
Proof.
  pose proof (definedPart_idemp (JObj o)) as H.
  rewrite !definedPart_obj in H. by injection H.
Qed.






(** The initial state is valid and holds [undefined] nowhere, whatever the
    clock says. *)
Lemma createInitialState_valid now ms1 ms2 :
  validState (createInitialState now ms1 ms2) = true
  ∧ holdsNoUndefined (createInitialState now ms1 ms2) = true.
Proof. split; vm_compute; reflexivity. Qed.

(** A state the reducer reaches in one action is valid and holds
    [undefined]: SET_SPARKLINE with [null] leaves the property [sparkline]
    with that value.  The property has no JSON form, so it is absent after
    the round trip, where it reads [undefined] as before. *)
Example undefined_property_is_dropped :
  validState clearedState = true
  ∧ holdsNoUndefined clearedState = false
  ∧ definedDoc clearedState ≠ clearedState
  ∧ parse <$> stringify (JObj {["value" := JNum 1; "sparkline" := JUndefined]})
    = Some (JObj {["value" := JNum 1]})
  ∧ prop {["value" := JNum 1; "sparkline" := JUndefined]} "sparkline"
    = prop {["value" := JNum 1]} "sparkline".
Proof.
  split; [by vm_compute|]. split; [by vm_compute|]. split; [|by vm_compute].
  intros H. apply (f_equal holdsNoUndefined) in H. by vm_compute in H.
Qed.

End JsonRoundTrip.

(** * Further properties of the code *)

(** ** One sheet at a time *)

Lemma mapSheet_id sid l : mapSheet sid id l = l.
Proof.
  unfold mapSheet. rewrite <- (list_fmap_id l) at 2.
  apply list_fmap_ext. intros i s _. by destruct (String.eqb _ _).
Qed.

(** Every action addressed to a sheet rewrites the list of sheets with one
    function, applied to the sheets that have the identifier; the function
    keeps the identifier of the sheet. *)
Lemma sheet_action_mapSheet a sid :
  actionTarget a = Some sid →
  ∃ f, (∀ s, sheetId (f s) = sheetId s)
       ∧ ∀ now st,
           sheets (documentReducer now st a) = mapSheet sid f (sheets st)
           ∧ activeSheetId (documentReducer now st a) = activeSheetId st.
Proof.
  destruct a; intros [= <-];
    try (eexists; split; [|intros now st; split; reflexivity]; by intros []).
  all: exists id; (split; [done|]); intros now st; cbn;
    by rewrite mapSheet_id.
Qed.

(** X1: an action addressed to a sheet changes neither [activeSheetId] nor
    the identifiers of the sheets, position by position, and leaves every
    sheet with another identifier as it is. *)
Theorem sheet_action_frame now st a sid :
  actionTarget a = Some sid →
  activeSheetId (documentReducer now st a) = activeSheetId st
  ∧ sheetId <$> sheets (documentReducer now st a) = sheetId <$> sheets st
  ∧ ∀ i sheet,
      sheets st !! i = Some sheet → sheetId sheet ≠ sid →
      sheets (documentReducer now st a) !! i = Some sheet.
Proof.
  intros Ht. destruct (sheet_action_mapSheet a sid Ht) as (f & Hf & Hred).
  destruct (Hred now st) as [-> ->]. split; [reflexivity|]. split.
  - unfold mapSheet. rewrite <- list_fmap_compose.
    apply list_fmap_ext. intros i s _. cbn.
    destruct (String.eqb _ _); by rewrite ?Hf.
  - intros i sheet Hi Hne. rewrite mapSheet_lookup, Hi. cbn.
    by destruct (String.eqb_spec (sheetId sheet) sid).
Qed.

Lemma sheet_action_frame_witness :
  activeSheetId (documentReducer "t1" lockedState
                   (UPDATE_CELL "s2" "A1" {["value" := JStr "y"]}))
  = activeSheetId lockedState
  ∧ sheetId <$> sheets (documentReducer "t1" lockedState
                          (UPDATE_CELL "s2" "A1" {["value" := JStr "y"]}))
    = sheetId <$> sheets lockedState
  ∧ ∀ i sheet,
      sheets lockedState !! i = Some sheet → sheetId sheet ≠ "s2"%string →
      sheets (documentReducer "t1" lockedState
                (UPDATE_CELL "s2" "A1" {["value" := JStr "y"]})) !! i
      = Some sheet.
Proof.
  apply (sheet_action_frame "t1" lockedState
           (UPDATE_CELL "s2" "A1" {["value" := JStr "y"]}) "s2").
  reflexivity.
Defined.

Lemma mapSheet_comm sid1 sid2 f g l :
  sid1 ≠ sid2 →
  (∀ s, sheetId (f s) = sheetId s) → (∀ s, sheetId (g s) = sheetId s) →
  mapSheet sid1 f (mapSheet sid2 g l) = mapSheet sid2 g (mapSheet sid1 f l).
Proof.
  intros Hne Hf Hg. unfold mapSheet. rewrite <- !list_fmap_compose.
  apply list_fmap_ext. intros i s _. cbn.
  destruct (String.eqb_spec (sheetId s) sid1) as [H1|H1],
           (String.eqb_spec (sheetId s) sid2) as [H2|H2];
    try congruence.
  - rewrite Hf. by destruct (String.eqb_spec (sheetId s) sid2);
      destruct (String.eqb_spec (sheetId s) sid1).
  - rewrite Hg. destruct (String.eqb_spec (sheetId s) sid1); [done|].
    by destruct (String.eqb_spec (sheetId s) sid2).
  - destruct (String.eqb_spec (sheetId s) sid1); [done|].
    by destruct (String.eqb_spec (sheetId s) sid2).
Qed.

(** X2: two actions addressed to different sheets give the same sheets in
    either order, whatever the clock readings. *)
Theorem actions_on_different_sheets_commute st a1 a2 sid1 sid2 t1 t2 t3 t4 :
  actionTarget a1 = Some sid1 → actionTarget a2 = Some sid2 → sid1 ≠ sid2 →
  sheets (runActions st [(t1, a1); (t2, a2)])
  = sheets (runActions st [(t3, a2); (t4, a1)]).
Proof.
  intros H1 H2 Hne. cbn [runActions].
  destruct (sheet_action_mapSheet a1 sid1 H1) as (f & Hf & Hr1).
  destruct (sheet_action_mapSheet a2 sid2 H2) as (g & Hg & Hr2).
  rewrite (proj1 (Hr2 _ _)), (proj1 (Hr1 _ _)),
    (proj1 (Hr1 _ _)), (proj1 (Hr2 _ _)).
  symmetry. by apply mapSheet_comm.
Qed.

Lemma actions_on_different_sheets_commute_witness :
  sheets (runActions lockedState
            [("t1", LOCK_CELLS "s1" ["B2"%string] true);
             ("t2", RENAME_SHEET "s2" "Plan")])
  = sheets (runActions lockedState
              [("t3", RENAME_SHEET "s2" "Plan");
               ("t4", LOCK_CELLS "s1" ["B2"%string] true)]).
Proof.
  apply (actions_on_different_sheets_commute lockedState
           (LOCK_CELLS "s1" ["B2"%string] true) (RENAME_SHEET "s2" "Plan")
           "s1" "s2" "t1" "t2" "t3" "t4"); [reflexivity|reflexivity|done].
Defined.

(** ** What the reducer keeps and what it stamps *)

(** X3: but for SET_DOCUMENT and RESTORE_FROM_IPFS no action changes
    [documentId], [settings] or [versionHistory]; [metadata.updatedAt]
    becomes the current time, except after SET_ACTIVE_SHEET and the three
    shape actions, which leave it. *)
Theorem reducer_keeps_document_fields now st a :
  replacesDocument a = false →
  documentId (documentReducer now st a) = documentId st
  ∧ settings (documentReducer now st a) = settings st
  ∧ versionHistory (documentReducer now st a) = versionHistory st
  ∧ metadata (documentReducer now st a) !! "updatedAt"
    = if stampsUpdatedAt a then Some (JStr now)
      else metadata st !! "updatedAt".
Proof.
  destruct a; intros Hrep; try discriminate Hrep; cbn;
    rewrite ?lookup_insert_eq; done.
Qed.

Lemma reducer_keeps_document_fields_witness :
  documentId (documentReducer "t1" lockedState (REMOVE_SHEET "s1"))
  = documentId lockedState
  ∧ settings (documentReducer "t1" lockedState (REMOVE_SHEET "s1"))
    = settings lockedState
  ∧ versionHistory (documentReducer "t1" lockedState (REMOVE_SHEET "s1"))
    = versionHistory lockedState
  ∧ metadata (documentReducer "t1" lockedState (REMOVE_SHEET "s1"))
      !! "updatedAt"
    = if stampsUpdatedAt (REMOVE_SHEET "s1") then Some (JStr "t1")
      else metadata lockedState !! "updatedAt".
Proof.
  apply (reducer_keeps_document_fields "t1" lockedState (REMOVE_SHEET "s1")).
  reflexivity.
Defined.

(** X4: UPDATE_METADATA reads, field by field, the payload where it has the
    field and the old metadata elsewhere, except [updatedAt], which is the
    current time even when the payload carries one; the sheets and
    [activeSheetId] stay. *)
Theorem update_metadata_merges now st payload :
  let st' := documentReducer now st (UPDATE_METADATA payload) in
  (∀ k, metadata st' !! k =
        if String.eqb k "updatedAt" then Some (JStr now)
        else match payload !! k with
             | Some v => Some v
             | None => metadata st !! k
             end)
  ∧ sheets st' = sheets st
  ∧ activeSheetId st' = activeSheetId st.
Proof.
  cbn. split; [|done]. intros k.
  destruct (String.eqb_spec k "updatedAt") as [->|Hne].
  - apply lookup_insert_eq.
  - rewrite lookup_insert_ne by done. rewrite lookup_union.
    destruct (payload !! k), (metadata st !! k); reflexivity.
Qed.

(** ** Shapes *)

(** X5: no action addressed to a sheet changes the shapes, links or symbols
    of any sheet; ADD_SHAPE, UPDATE_SHAPE and REMOVE_SHAPE are accepted and
    change nothing. *)
Theorem sheet_actions_never_change_shapes now st a sid i sheet :
  actionTarget a = Some sid →
  sheets st !! i = Some sheet →
  ∃ sheet',
    sheets (documentReducer now st a) !! i = Some sheet'
    ∧ shapes sheet' = shapes sheet
    ∧ links sheet' = links sheet
    ∧ symbols sheet' = symbols sheet.
Proof.
  intros Ht Hi.
  destruct a; try discriminate Ht; cbn;
    rewrite ?mapSheet_lookup, Hi; cbn;
    try (destruct (String.eqb (sheetId sheet) _));
    eexists; (split; [reflexivity|]); done.
Qed.

Lemma sheet_actions_never_change_shapes_witness :
  ∃ sheet',
    sheets (documentReducer "t1" lockedState
              (ADD_SHAPE "s1" {["id" := JStr "shape-1"]})) !! 0%nat
    = Some sheet'
    ∧ shapes sheet' = shapes lockedSheet
    ∧ links sheet' = links lockedSheet
    ∧ symbols sheet' = symbols lockedSheet.
Proof.
  apply (sheet_actions_never_change_shapes "t1" lockedState
           (ADD_SHAPE "s1" {["id" := JStr "shape-1"]}) "s1" 0%nat lockedSheet);
    reflexivity.
Defined.

(** ** Cells *)

(** The cells of the sheet at a position after an action on the cells of the
    sheets [sid]. *)
Lemma cells_after now st sid f a i sheet :
  sheets (documentReducer now st a)
  = mapSheet sid (λ sheet, withCells (f sheet) sheet) (sheets st) →
  sheets st !! i = Some sheet → sheetId sheet = sid →
  cells <$> sheets (documentReducer now st a) !! i = Some (f sheet).
Proof.
  intros -> Hi Hid. rewrite mapSheet_lookup, Hi. cbn.
  apply String.eqb_eq in Hid. by rewrite Hid.
Qed.

(** X6: SET_CELL_STYLE merges into the style of the cell: a style key reads
    the payload where the payload has it and the old style elsewhere; the
    other fields of the cell, the other cells and the other fields of the
    sheet stay. *)
Theorem set_cell_style_merges now st sid cellKey style i sheet :
  sheets st !! i = Some sheet → sheetId sheet = sid →
  ∃ sheet' cell' style',
    sheets (documentReducer now st (SET_CELL_STYLE sid cellKey style)) !! i
    = Some sheet'
    ∧ sheet' = withCells (cells sheet') sheet
    ∧ cells sheet' !! cellKey = Some cell'
    ∧ cell' !! "style" = Some (JObj style')
    ∧ (∀ k, style' !! k =
            match style !! k with
            | Some v => Some v
            | None => spread (cells sheet !! cellKey ≫= (.!! "style")) !! k
            end)
    ∧ (∀ field, field ≠ "style"%string →
         cell' !! field = default ∅ (cells sheet !! cellKey) !! field)
    ∧ (∀ other, other ≠ cellKey →
         cells sheet' !! other = cells sheet !! other).
Proof.
  intros Hi Hid. cbn. rewrite mapSheet_lookup, Hi. cbn.
  apply String.eqb_eq in Hid. rewrite Hid.
  eexists _, _, _. split; [reflexivity|]. cbn.
  split; [reflexivity|]. split; [apply lookup_insert_eq|].
  split; [apply lookup_insert_eq|]. split; [|split].
  - intros k. rewrite lookup_union.
    destruct (style !! k); cbn;
      by destruct (spread _ !! k).
  - intros field Hne. by rewrite lookup_insert_ne.
  - intros other Hne. by rewrite lookup_insert_ne.
Qed.

Lemma set_cell_style_merges_witness :
  ∃ sheet' cell' style',
    sheets (documentReducer "t1" lockedState
              (SET_CELL_STYLE "s1" "A1" {["italic" := JBool true]})) !! 0%nat
    = Some sheet'
    ∧ sheet' = withCells (cells sheet') lockedSheet
    ∧ cells sheet' !! "A1" = Some cell'
    ∧ cell' !! "style" = Some (JObj style')
    ∧ (∀ k, style' !! k =
            match ({["italic" := JBool true]} : JsObj) !! k with
            | Some v => Some v
            | None =>
                spread (cells lockedSheet !! "A1" ≫= (.!! "style")) !! k
            end)
    ∧ (∀ field, field ≠ "style"%string →
         cell' !! field = default ∅ (cells lockedSheet !! "A1") !! field)
    ∧ (∀ other, other ≠ "A1"%string →
         cells sheet' !! other = cells lockedSheet !! other).
Proof.
  apply (set_cell_style_merges "t1" lockedState "s1" "A1"
           {["italic" := JBool true]} 0%nat lockedSheet); reflexivity.
Defined.

Lemma update_cells_lookup (cs newCells : gmap string JsObj) key :
  (map_imap (λ key data, Some (mergeCell cs key data)) (assignedEntries newCells)
   ∪ cs) !! key
  = match newCells !! key with
    | Some data =>
        if String.eqb key "__proto__" then cs !! key
        else Some (mergeCell cs key data)
    | None => cs !! key
    end.
Proof.
  unfold assignedEntries. rewrite lookup_union, map_lookup_imap.
  destruct (String.eqb_spec key "__proto__") as [->|Hne].
  - rewrite lookup_delete_eq. cbn.
    by destruct (newCells !! "__proto__"), (cs !! "__proto__").
  - rewrite lookup_delete_ne by done.
    destruct (newCells !! key); cbn; by destruct (cs !! key).
Qed.

(** X7: UPDATE_CELLS does in one action, for every key of its payload but
    [__proto__], what UPDATE_CELL does for one: the cell at the key is the
    payload merged into the old cell.  An entry of the payload under the key
    [__proto__] is dropped, where UPDATE_CELL stores it: the cell of that
    key stays as it was, as does every cell whose key is not in the
    payload. *)
Theorem update_cells_is_update_cell_per_key now st sid newCells i sheet :
  sheets st !! i = Some sheet → sheetId sheet = sid →
  ∃ sheet',
    sheets (documentReducer now st (UPDATE_CELLS sid newCells)) !! i
    = Some sheet'
    ∧ sheet' = withCells (cells sheet') sheet
    ∧ (∀ key,
         cells sheet' !! key =
         match newCells !! key with
         | Some data =>
             if String.eqb key "__proto__" then cells sheet !! key
             else Some (data ∪ default ∅ (cells sheet !! key))
         | None => cells sheet !! key
         end)
    ∧ (∀ key data,
         key ≠ "__proto__"%string → newCells !! key = Some data →
         cells sheet' !! key
         = sheets (documentReducer now st (UPDATE_CELL sid key data)) !! i
           ≫= λ updated, cells updated !! key).
Proof.
  intros Hi Hid. cbn. rewrite mapSheet_lookup, Hi. cbn.
  apply String.eqb_eq in Hid. rewrite Hid.
  eexists. split; [reflexivity|]. cbn. split; [reflexivity|]. split.
  - intros key. apply update_cells_lookup.
  - intros key data Hne Hkey. rewrite update_cells_lookup, Hkey.
    apply String.eqb_neq in Hne. rewrite Hne.
    rewrite mapSheet_lookup, Hi. cbn. rewrite Hid. cbn.
    by rewrite lookup_insert_eq.
Qed.

Lemma update_cells_is_update_cell_per_key_witness :
  ∃ sheet',
    sheets (documentReducer "t1" lockedState
              (UPDATE_CELLS "s1" {["A1" := {["value" := JStr "1"]};
                                  "__proto__" := {["value" := JStr "2"]}]}))
      !! 0%nat
    = Some sheet'
    ∧ sheet' = withCells (cells sheet') lockedSheet
    ∧ (∀ key,
         cells sheet' !! key =
         match ({["A1" := {["value" := JStr "1"]};
                  "__proto__" := {["value" := JStr "2"]}]}
                 : gmap string JsObj) !! key with
         | Some data =>
             if String.eqb key "__proto__" then cells lockedSheet !! key
             else Some (data ∪ default ∅ (cells lockedSheet !! key))
         | None => cells lockedSheet !! key
         end)
    ∧ (∀ key data,
         key ≠ "__proto__"%string →
         ({["A1" := {["value" := JStr "1"]};
            "__proto__" := {["value" := JStr "2"]}]}
           : gmap string JsObj) !! key = Some data →
         cells sheet' !! key
         = sheets (documentReducer "t1" lockedState
                     (UPDATE_CELL "s1" key data)) !! 0%nat
           ≫= λ updated, cells updated !! key).
Proof.
  apply (update_cells_is_update_cell_per_key "t1" lockedState "s1" _ 0%nat
           lockedSheet); reflexivity.
Defined.

Lemma mergeCell_ext (cs1 cs2 : gmap string JsObj) key data :
  cs1 !! key = cs2 !! key → mergeCell cs1 key data = mergeCell cs2 key data.
Proof. unfold mergeCell. by intros ->. Qed.

Lemma mapSheet_ext sid f g l :
  (∀ s, sheetId s = sid → f s = g s) → mapSheet sid f l = mapSheet sid g l.
Proof.
  intros Hfg. apply list_fmap_ext. intros i s _. cbn.
  destruct (String.eqb_spec (sheetId s) sid); [by apply Hfg | done].
Qed.

Lemma mapSheet_compose sid f g l :
  (∀ s, sheetId (f s) = sheetId s) →
  mapSheet sid g (mapSheet sid f l) = mapSheet sid (g ∘ f) l.
Proof.
  intros Hf. unfold mapSheet. rewrite <- list_fmap_compose.
  apply list_fmap_ext. intros i s _. cbn.
  destruct (String.eqb_spec (sheetId s) sid) as [Heq|Hne].
  - rewrite Hf. apply String.eqb_eq in Heq. by rewrite Heq.
  - apply String.eqb_neq in Hne. by rewrite Hne.
Qed.

Lemma withCells_withCells c1 c2 s :
  withCells c2 (withCells c1 s) = withCells c2 s.
Proof. reflexivity. Qed.

(** X8: two UPDATE_CELLS on the same sheet with disjoint keys give the
    sheets of the single UPDATE_CELLS with the union of the two payloads. *)
Theorem update_cells_batches st sid batch1 batch2 t1 t2 t3 :
  batch1 ##ₘ batch2 →
  sheets (runActions st [(t1, UPDATE_CELLS sid batch1);
                         (t2, UPDATE_CELLS sid batch2)])
  = sheets (documentReducer t3 st (UPDATE_CELLS sid (batch1 ∪ batch2))).
Proof.
  intros Hdisj. cbn -[mapSheet]. rewrite mapSheet_compose by done.
  apply mapSheet_ext. intros s _. unfold compose.
  rewrite withCells_withCells. f_equal. cbn [cells withCells].
  apply map_eq. intros key. rewrite !update_cells_lookup.
  rewrite lookup_union.
  destruct (batch1 !! key) as [d1|] eqn:H1,
           (batch2 !! key) as [d2|] eqn:H2; cbn; try reflexivity.
  - by destruct (map_disjoint_spec batch1 batch2) as [Hd _];
      destruct (Hd Hdisj key d1 d2).
  - destruct (String.eqb key "__proto__"); [done|].
    f_equal. apply mergeCell_ext. by rewrite update_cells_lookup, H1.
Qed.

Lemma update_cells_batches_witness :
  sheets (runActions lockedState
            [("t1", UPDATE_CELLS "s1" {["A1" := {["value" := JStr "1"]}]});
             ("t2", UPDATE_CELLS "s1" {["B1" := {["value" := JStr "2"]}]})])
  = sheets (documentReducer "t3" lockedState
              (UPDATE_CELLS "s1"
                 ({["A1" := {["value" := JStr "1"]}]}
                  ∪ {["B1" := {["value" := JStr "2"]}]}))).
Proof.
  apply (update_cells_batches lockedState "s1"
           {["A1" := {["value" := JStr "1"]}]}
           {["B1" := {["value" := JStr "2"]}]} "t1" "t2" "t3").
  apply map_disjoint_singleton_l. reflexivity.
Defined.

(** A batch of one cell is UPDATE_CELL, unless the key is [__proto__]. *)
Lemma update_cells_singleton now st sid cellKey data :
  cellKey ≠ "__proto__"%string →
  documentReducer now st (UPDATE_CELLS sid {[cellKey := data]})
  = documentReducer now st (UPDATE_CELL sid cellKey data).
Proof.
  intros Hproto.
  cbn -[mapSheet]. do 2 f_equal. apply mapSheet_ext. intros s _. f_equal.
  apply map_eq. intros key. rewrite update_cells_lookup.
  destruct (decide (key = cellKey)) as [->|Hne].
  - apply String.eqb_neq in Hproto.
    by rewrite lookup_singleton_eq, lookup_insert_eq, Hproto.
  - by rewrite lookup_singleton_ne, lookup_insert_ne.
Qed.

(** UPDATE_CELL is idempotent on the sheets. *)
Lemma update_cell_twice st sid cellKey data t1 t2 t3 :
  sheets (runActions st [(t1, UPDATE_CELL sid cellKey data);
                         (t2, UPDATE_CELL sid cellKey data)])
  = sheets (documentReducer t3 st (UPDATE_CELL sid cellKey data)).
Proof.
  cbn -[mapSheet]. rewrite mapSheet_compose by done.
  apply mapSheet_ext. intros s _. unfold compose.
  rewrite withCells_withCells. f_equal. cbn [cells withCells].
  rewrite insert_insert_eq. f_equal.
  unfold mergeCell. rewrite lookup_insert_eq. cbn.
  apply map_eq. intros k. rewrite !lookup_union.
  by destruct (data !! k), (default ∅ (cells s !! cellKey) !! k).
Qed.

(** ** Locks and protection after an action *)

Lemma findSheet_mapSheet st st' sid f id :
  (∀ s, sheetId (f s) = sheetId s) →
  sheets st' = mapSheet sid f (sheets st) →
  findSheet st' id
  = (λ s, if String.eqb (sheetId s) sid then f s else s) <$> findSheet st id.
Proof.
  intros Hf. unfold findSheet. intros ->.
  induction (sheets st) as [|s l IH]; [reflexivity|]. cbn.
  destruct (String.eqb (sheetId s) sid) eqn:Hs; rewrite ?Hf;
    destruct (String.eqb (sheetId s) id); cbn; rewrite ?Hs; done.
Qed.

Lemma findSheet_hasSheet st id :
  hasSheet st id = match findSheet st id with Some _ => true | None => false end.
Proof.
  unfold hasSheet, findSheet. induction (sheets st) as [|s l IH]; [done|].
  cbn. by destruct (String.eqb (sheetId s) id).
Qed.

Lemma findSheet_sheetId st id sheet :
  findSheet st id = Some sheet → sheetId sheet = id.
Proof.
  unfold findSheet. intros H. apply find_some in H as [_ H].
  by apply String.eqb_eq.
Qed.

Lemma lockEntries_foldl cellKeys locked (acc : gmap string bool) key :
  foldl (λ acc cellKey, <[cellKey := locked]> acc) acc cellKeys !! key
  = if bool_decide (key ∈ cellKeys) then Some locked else acc !! key.
Proof.
  revert acc. induction cellKeys as [|k l IH]; intros acc; cbn.
  - rewrite bool_decide_eq_false_2; [done|]. apply not_elem_of_nil.
  - rewrite IH. destruct (decide (key ∈ l)) as [Hin|Hnin].
    + rewrite !bool_decide_eq_true_2; [done| |done]. by right.
    + rewrite (bool_decide_eq_false_2 (key ∈ l)) by done.
      destruct (decide (key = k)) as [->|Hne].
      * rewrite lookup_insert_eq, bool_decide_eq_true_2; [done|]. by left.
      * rewrite lookup_insert_ne by done.
        rewrite bool_decide_eq_false_2; [done|].
        intros [?|?]%elem_of_cons; done.
Qed.

Lemma lockEntries_lookup cellKeys locked key :
  lockEntries cellKeys locked !! key
  = if bool_decide (key ∈ cellKeys) then Some locked else None.
Proof. unfold lockEntries. by rewrite lockEntries_foldl, lookup_empty. Qed.

(** X9: after LOCK_CELLS a listed cell of an existing sheet returns [true]
    exactly when the sheet is protected or the action locks, and [false]
    otherwise.  For a cell that is not listed the answer is what it was,
    with one exception: a sheet that had no [cellLocks] has an object
    afterwards, so that, when it is not protected, a key naming a property
    of [Object.prototype] now brings back the inherited value where it
    brought [false].  The other sheets and [isSheetProtected] answer as
    before. *)
Theorem lock_cells_then_query now st sid cellKeys locked :
  let st' := documentReducer now st (LOCK_CELLS sid cellKeys locked) in
  (∀ key,
     isCellLocked st' sid key =
     if bool_decide (key ∈ cellKeys)
     then LockBool (hasSheet st sid && (isSheetProtected st sid || locked))
     else
       match findSheet st sid with
       | Some sheet =>
           match protected sheet, cellLocks sheet with
           | (None | Some false), None => readLock ∅ key
           | _, _ => isCellLocked st sid key
           end
       | None => LockBool false
       end)
  ∧ (∀ other key, other ≠ sid →
       isCellLocked st' other key = isCellLocked st other key)
  ∧ (∀ id, isSheetProtected st' id = isSheetProtected st id).
Proof.
  cbn zeta.
  assert (Hfind : ∀ id,
    findSheet (documentReducer now st (LOCK_CELLS sid cellKeys locked)) id
    = (λ s, if String.eqb (sheetId s) sid
            then withCellLocks
                   (lockEntries cellKeys locked ∪ default ∅ (cellLocks s)) s
            else s) <$> findSheet st id).
  { intros id. by apply findSheet_mapSheet. }
  split; [|split].
  - intros key. unfold isCellLocked, isSheetProtected, readLock.
    rewrite Hfind, findSheet_hasSheet.
    destruct (findSheet st sid) as [sheet|] eqn:Hs; cbn; [|by case_bool_decide].
    rewrite (findSheet_sheetId _ _ _ Hs), String.eqb_refl. cbn.
    rewrite lookup_union, lockEntries_lookup.
    destruct (protected sheet) as [[]|]; cbn; case_bool_decide; cbn;
      try done;
      destruct (cellLocks sheet) as [locks|]; cbn; rewrite ?lookup_empty;
      try destruct (locks !! key) as [[]|]; by destruct locked.
  - intros other key Hne. unfold isCellLocked. rewrite Hfind.
    destruct (findSheet st other) as [sheet|] eqn:Hs; cbn; [|done].
    rewrite (findSheet_sheetId _ _ _ Hs).
    apply String.eqb_neq in Hne. by rewrite Hne.
  - intros id. unfold isSheetProtected. rewrite Hfind.
    destruct (findSheet st id) as [sheet|]; cbn; [|done].
    by destruct (String.eqb (sheetId sheet) sid).
Qed.

(** X10: after PROTECT_SHEET the sheet is protected exactly when it exists
    and the action protects.  A cell of it then returns [true] when the
    action protects, and otherwise what the sheet's [cellLocks] gives for
    the key, so the cell locks survive an unprotect (and so does the
    inherited value for a key that names a property of [Object.prototype]).
    The other sheets answer as before. *)
Theorem protect_sheet_then_query now st sid isProtected password :
  let st' :=
    documentReducer now st (PROTECT_SHEET sid isProtected password) in
  isSheetProtected st' sid = hasSheet st sid && isProtected
  ∧ (∀ key,
       isCellLocked st' sid key =
       match findSheet st sid with
       | None => LockBool false
       | Some sheet =>
           if isProtected then LockBool true
           else match cellLocks sheet with
                | None => LockBool false
                | Some locks => readLock locks key
                end
       end)
  ∧ (∀ other key, other ≠ sid →
       isSheetProtected st' other = isSheetProtected st other
       ∧ isCellLocked st' other key = isCellLocked st other key).
Proof.
  cbn zeta.
  assert (Hfind : ∀ id,
    findSheet (documentReducer now st (PROTECT_SHEET sid isProtected password))
      id
    = (λ s, if String.eqb (sheetId s) sid
            then withProtection isProtected password s else s)
        <$> findSheet st id).
  { intros id. by apply findSheet_mapSheet. }
  split; [|split].
  - unfold isSheetProtected. rewrite Hfind, findSheet_hasSheet.
    destruct (findSheet st sid) as [sheet|] eqn:Hs; cbn; [|done].
    rewrite (findSheet_sheetId _ _ _ Hs), String.eqb_refl. cbn.
    by destruct isProtected.
  - intros key. unfold isCellLocked. rewrite Hfind.
    destruct (findSheet st sid) as [sheet|] eqn:Hs; cbn; [|done].
    rewrite (findSheet_sheetId _ _ _ Hs), String.eqb_refl. cbn.
    by destruct isProtected.
  - intros other key Hne. unfold isSheetProtected, isCellLocked.
    rewrite Hfind.
    destruct (findSheet st other) as [sheet|] eqn:Hs; cbn; [|done].
    rewrite (findSheet_sheetId _ _ _ Hs).
    apply String.eqb_neq in Hne. by rewrite Hne.
Qed.

(** ** Sparklines *)

(** X11: of two SET_SPARKLINE on the same cell the second decides: the
    sheets are those of the second alone.  In particular the action is
    idempotent, and clearing after setting is clearing. *)
Theorem set_sparkline_last_wins st sid cellKey v1 v2 t1 t2 t3 :
  sheets (runActions st [(t1, SET_SPARKLINE sid cellKey v1);
                         (t2, SET_SPARKLINE sid cellKey v2)])
  = sheets (documentReducer t3 st (SET_SPARKLINE sid cellKey v2)).
Proof.
  cbn -[mapSheet]. rewrite mapSheet_compose by done.
  apply mapSheet_ext. intros s _. unfold compose.
  rewrite withCells_withCells. f_equal. cbn [cells withCells].
  rewrite insert_insert_eq, lookup_insert_eq. cbn.
  by rewrite insert_insert_eq.
Qed.

(** X12: SET_SPARKLINE with [null] leaves at the key a cell whose
    [sparkline] property holds [undefined] and whose other fields are those
    of the old cell; when there was no cell it creates one. *)
Theorem set_sparkline_null_creates_cell now st sid cellKey i sheet :
  sheets st !! i = Some sheet → sheetId sheet = sid →
  ∃ sheet' cell',
    sheets (documentReducer now st (SET_SPARKLINE sid cellKey JNull)) !! i
    = Some sheet'
    ∧ cells sheet' !! cellKey = Some cell'
    ∧ cell' !! "sparkline" = Some JUndefined
    ∧ (∀ field, field ≠ "sparkline"%string →
         cell' !! field = default ∅ (cells sheet !! cellKey) !! field).
Proof.
  intros Hi Hid. cbn. rewrite mapSheet_lookup, Hi. cbn.
  apply String.eqb_eq in Hid. rewrite Hid. cbn.
  eexists _, _. split; [reflexivity|]. cbn.
  split; [apply lookup_insert_eq|]. split; [apply lookup_insert_eq|].
  intros field Hne. by rewrite lookup_insert_ne.
Qed.

Lemma set_sparkline_null_creates_cell_witness :
  ∃ sheet' cell',
    sheets (documentReducer "t1" lockedState (SET_SPARKLINE "s1" "Z9" JNull))
      !! 0%nat
    = Some sheet'
    ∧ cells sheet' !! "Z9" = Some cell'
    ∧ cell' !! "sparkline" = Some JUndefined
    ∧ (∀ field, field ≠ "sparkline"%string →
         cell' !! field = default ∅ (cells lockedSheet !! "Z9") !! field).
Proof.
  apply (set_sparkline_null_creates_cell "t1" lockedState "s1" "Z9" 0%nat
           lockedSheet); reflexivity.
Defined.

(** ** Adding and removing *)

Lemma filter_sheetId_absent (l : list SheetData) id :
  (∀ s, s ∈ l → sheetId s ≠ id) → filter (λ s, sheetId s ≠ id) l = l.
Proof.
  induction l as [|s l IH]; intros Hne; [reflexivity|].
  rewrite filter_cons_True by (apply Hne; constructor).
  f_equal. apply IH. intros s' Hs'. apply Hne. by constructor.
Qed.

(** X13: ADD_SHEET followed by REMOVE_SHEET of the added identifier leaves
    the sheets without any sheet of that identifier, the older ones
    included, with [sheetCount] right; when the identifier was new the
    sheets are back, and so is [activeSheetId] unless it was that
    identifier. *)
Theorem add_then_remove_sheet st p t1 t2 :
  let st' := runActions st [(t1, ADD_SHEET p); (t2, REMOVE_SHEET (sheetId p))] in
  sheets st' = filter (λ s, sheetId s ≠ sheetId p) (sheets st)
  ∧ sheetCountOk st' = true
  ∧ (hasSheet st (sheetId p) = false →
     sheets st' = sheets st
     ∧ (activeSheetId st ≠ sheetId p → activeSheetId st' = activeSheetId st)).
Proof.
  cbn zeta. cbn [runActions].
  assert (Hs : sheets (documentReducer t2 (documentReducer t1 st (ADD_SHEET p))
                         (REMOVE_SHEET (sheetId p)))
               = filter (λ s, sheetId s ≠ sheetId p) (sheets st)).
  { cbn. rewrite filter_app, filter_cons_False by (intros H; by apply H).
    cbn. by rewrite app_nil_r. }
  split; [exact Hs|]. split.
  - by apply sheetCountOk_after_sheet_action.
  - intros Hfresh. rewrite Hs. split.
    + apply filter_sheetId_absent. by apply hasSheet_false.
    + intros Hne. cbn. apply String.eqb_neq in Hne. by rewrite Hne.
Qed.

(** X14: REMOVE_SHEET is idempotent on the sheets and on [activeSheetId],
    and leaves no sheet with the identifier. *)
Theorem remove_sheet_twice st id t1 t2 t3 :
  let st1 := documentReducer t3 st (REMOVE_SHEET id) in
  let st2 := runActions st [(t1, REMOVE_SHEET id); (t2, REMOVE_SHEET id)] in
  sheets st2 = sheets st1
  ∧ activeSheetId st2 = activeSheetId st1
  ∧ hasSheet st1 id = false.
Proof.
  cbn zeta. cbn [runActions].
  assert (Hno : ∀ s, s ∈ filter (λ s, sheetId s ≠ id) (sheets st) →
                     sheetId s ≠ id).
  { intros s Hs. by apply list_elem_of_filter in Hs as [? _]. }
  split; [|split].
  - cbn. by apply filter_sheetId_absent.
  - cbn. rewrite (filter_sheetId_absent _ id Hno).
    destruct (String.eqb_spec (activeSheetId st) id) as [Heq|Hne].
    + rewrite firstSheetId_head.
      destruct (filter _ (sheets st)) as [|s l] eqn:Hf.
      * by destruct (String.eqb "" id).
      * assert (sheetId s ≠ id) as Hs by (apply Hno; constructor).
        apply String.eqb_neq in Hs. by rewrite Hs.
    + apply String.eqb_neq in Hne. by rewrite Hne.
  - unfold hasSheet. cbn.
    destruct (existsb _ _) eqn:Hex; [|done].
    apply existsb_exists in Hex as (s & Hin & Heq).
    apply list_elem_of_In in Hin. apply String.eqb_eq in Heq.
    by destruct (Hno s Hin).
Qed.

Lemma find_head_id (l : list SheetData) :
  List.find (λ s, String.eqb (sheetId s) (firstSheetId l)) l = head l.
Proof.
  rewrite firstSheetId_head. destruct l as [|s l]; [done|]. cbn.
  by rewrite String.eqb_refl.
Qed.

(** X15: after the removal of the active sheet, [activeSheet] is the first
    of the sheets that are left, and none when there is none. *)
Theorem remove_active_sheet_activates_first now st :
  activeSheet (documentReducer now st (REMOVE_SHEET (activeSheetId st)))
  = head (filter (λ s, sheetId s ≠ activeSheetId st) (sheets st)).
Proof.
  unfold activeSheet, findSheet. cbn. rewrite String.eqb_refl.
  apply find_head_id.
Qed.

(** ** Images *)

Lemma filter_app_one (l : list JsObj) image id :
  idIs image id = true →
  List.filter (λ e, negb (idIs e id)) (l ++ [image])
  = List.filter (λ e, negb (idIs e id)) l.
Proof.
  intros Hid. rewrite List.filter_app. cbn. rewrite Hid. cbn.
  apply app_nil_r.
Qed.

(** X16: ADD_IMAGE of an image with a new identifier followed by
    REMOVE_IMAGE of that identifier gives back the sheets. *)
Theorem add_then_remove_image st sid image id t1 t2 :
  idIs image id = true →
  noEntity images st sid id = true →
  sheets (runActions st [(t1, ADD_IMAGE sid image); (t2, REMOVE_IMAGE sid id)])
  = sheets st.
Proof.
  intros Hid Hfresh. cbn -[mapSheet]. rewrite mapSheet_compose by done.
  apply mapSheet_fixed. intros sheet Hin Heq. unfold compose. cbn.
  rewrite filter_app_one by done.
  rewrite filter_unmatched by eauto using noEntity_spec.
  by destruct sheet.
Qed.

Lemma add_then_remove_image_witness :
  sheets (runActions lockedState
            [("t1", ADD_IMAGE "s1" {["id" := JStr "img-2"]});
             ("t2", REMOVE_IMAGE "s1" "img-2")])
  = sheets lockedState.
Proof.
  apply (add_then_remove_image lockedState "s1" {["id" := JStr "img-2"]}
           "img-2" "t1" "t2"); reflexivity.
Defined.

Lemma filter_negb_idIs_spec (l : list JsObj) id e :
  e ∈ List.filter (λ e, negb (idIs e id)) l → idIs e id = false.
Proof.
  rewrite list_elem_of_In, filter_In. intros [_ H].
  by apply negb_true_iff.
Qed.

(** After REMOVE_IMAGE no image of the target sheets has the identifier. *)
Lemma remove_image_leaves_none now st sid id :
  noEntity images (documentReducer now st (REMOVE_IMAGE sid id)) sid id = true.
Proof.
  unfold noEntity. cbn. apply forallb_forall. intros sheet' Hin.
  apply list_elem_of_In, list_elem_of_fmap in Hin as (sheet & -> & Hin).
  destruct (String.eqb (sheetId sheet) sid) eqn:Hs; cbn; rewrite Hs; cbn;
    [|done].
  apply forallb_forall. intros e He. apply negb_true_iff.
  apply list_elem_of_In in He. by eapply filter_negb_idIs_spec.
Qed.

(** UPDATE_IMAGE keeps the number of images of every sheet, and their
    identifiers when the updates carry none. *)
Lemma update_image_keeps_count now st sid id updates i sheet :
  sheets st !! i = Some sheet →
  ∃ sheet',
    sheets (documentReducer now st (UPDATE_IMAGE sid id updates)) !! i
    = Some sheet'
    ∧ length (images sheet') = length (images sheet)
    ∧ (updates !! "id" = None →
       (.!! "id") <$> images sheet' = (.!! "id") <$> images sheet).
Proof.
  intros Hi. cbn. rewrite mapSheet_lookup, Hi. cbn.
  eexists. split; [reflexivity|].
  destruct (String.eqb (sheetId sheet) sid); cbn; [|done].
  split; [by rewrite length_fmap|].
  intros Hnoid. rewrite <- list_fmap_compose. apply list_fmap_ext.
  intros j img _. cbn. destruct (idIs img id); [|done].
  rewrite lookup_union, Hnoid. by destruct (img !! "id").
Qed.

Lemma update_image_keeps_count_witness :
  ∃ sheet',
    sheets (documentReducer "t1" lockedState
              (UPDATE_IMAGE "s1" "img-1" {["x" := JNum 10]})) !! 0%nat
    = Some sheet'
    ∧ length (images sheet') = length (images lockedSheet)
    ∧ (({["x" := JNum 10]} : JsObj) !! "id" = None →
       (.!! "id") <$> images sheet' = (.!! "id") <$> images lockedSheet).
Proof.
  apply (update_image_keeps_count "t1" lockedState "s1" "img-1"
           {["x" := JNum 10]} 0%nat lockedSheet). reflexivity.
Defined.

(** ** Row and column sizes *)

(** X17: after SET_ROW_SIZE the row reads the new size, every other row
    reads what it did (two row indices never share a key), and the rest of
    the grid and of the sheet stays. *)
Theorem set_row_size_then_read now st sid rowIndex size i sheet :
  sheets st !! i = Some sheet → sheetId sheet = sid →
  ∃ sheet' rows',
    sheets (documentReducer now st (SET_ROW_SIZE sid rowIndex size)) !! i
    = Some sheet'
    ∧ sheet' = withGrid (grid sheet') sheet
    ∧ grid sheet' !! "rowSizes" = Some (JObj rows')
    ∧ rows' !! numKey rowIndex = Some (JNum size)
    ∧ (∀ other, other ≠ rowIndex →
         rows' !! numKey other
         = spread (grid sheet !! "rowSizes") !! numKey other)
    ∧ (∀ k, k ≠ "rowSizes"%string → grid sheet' !! k = grid sheet !! k).
Proof.
  intros Hi Hid. cbn. rewrite mapSheet_lookup, Hi. cbn.
  apply String.eqb_eq in Hid. rewrite Hid. cbn.
  eexists _, _. split; [reflexivity|]. cbn. split; [reflexivity|].
  split; [apply lookup_insert_eq|]. split; [apply lookup_insert_eq|]. split.
  - intros other Hne. rewrite lookup_insert_ne; [done|].
    unfold numKey. intros Heq. apply Hne. symmetry.
    by apply (inj pretty).
  - intros k Hne. by rewrite lookup_insert_ne.
Qed.

Lemma set_row_size_then_read_witness :
  ∃ sheet' rows',
    sheets (documentReducer "t1" lockedState (SET_ROW_SIZE "s1" 3 40)) !! 0%nat
    = Some sheet'
    ∧ sheet' = withGrid (grid sheet') lockedSheet
    ∧ grid sheet' !! "rowSizes" = Some (JObj rows')
    ∧ rows' !! numKey 3 = Some (JNum 40)
    ∧ (∀ other, other ≠ 3 →
         rows' !! numKey other
         = spread (grid lockedSheet !! "rowSizes") !! numKey other)
    ∧ (∀ k, k ≠ "rowSizes"%string →
         grid sheet' !! k = grid lockedSheet !! k).
Proof.
  apply (set_row_size_then_read "t1" lockedState "s1" 3 40 0%nat lockedSheet);
    reflexivity.
Defined.

(** ** Saving, loading and the save handler *)

(** X18: a save whose upload resolves leaves in the store the state the
    callback captured with one more entry at the end of its version history,
    carrying the content identifier and the owner as author: the metadata is
    the captured one, so the refresh of [updatedAt] dispatched just before
    the commit is lost, and so is whatever the store held that the capture
    did not. *)
Theorem successful_save_commits_captured_state {Remote : Type}
    (upload : DocumentState → Remote → Outcome string * Remote)
    (state : DocumentState) (w : World Remote) (cid : string) (rem : Remote) :
  upload state (remote w) = (Resolved cid, rem) →
  ∃ entry : JsObj,
    fst (saveToIPFS upload state w) = Resolved cid
    ∧ versionHistory (current (snd (saveToIPFS upload state w)))
      = Some (default [] (versionHistory state) ++ [entry])
    ∧ entry !! "cid" = Some (JStr cid)
    ∧ entry !! "author" = Some (prop (metadata state) "owner")
    ∧ metadata (current (snd (saveToIPFS upload state w))) = metadata state
    ∧ sheets (current (snd (saveToIPFS upload state w))) = sheets state
    ∧ activeSheetId (current (snd (saveToIPFS upload state w)))
      = activeSheetId state.
Proof.
  intros Hup. destruct (saveToIPFS_resolved upload state w cid rem Hup)
    as [Hres Hcur].
  eexists. split; [exact Hres|]. rewrite Hcur. cbn.
  split; [reflexivity|]. by repeat split.
Qed.

Lemma successful_save_commits_captured_state_witness :
  ∃ entry : JsObj,
    fst (saveToIPFS (λ _ (n : nat), (Resolved "cid-1"%string, S n))
           lockedState (mkWorld sampleState 0%nat (λ _, "t"%string) 0%nat))
    = Resolved "cid-1"%string
    ∧ versionHistory
        (current
           (snd (saveToIPFS (λ _ (n : nat), (Resolved "cid-1"%string, S n))
                   lockedState
                   (mkWorld sampleState 0%nat (λ _, "t"%string) 0%nat))))
      = Some (default [] (versionHistory lockedState) ++ [entry])
    ∧ entry !! "cid" = Some (JStr "cid-1")
    ∧ entry !! "author" = Some (prop (metadata lockedState) "owner")
    ∧ metadata
        (current
           (snd (saveToIPFS (λ _ (n : nat), (Resolved "cid-1"%string, S n))
                   lockedState
                   (mkWorld sampleState 0%nat (λ _, "t"%string) 0%nat))))
      = metadata lockedState
    ∧ sheets
        (current
           (snd (saveToIPFS (λ _ (n : nat), (Resolved "cid-1"%string, S n))
                   lockedState
                   (mkWorld sampleState 0%nat (λ _, "t"%string) 0%nat))))
      = sheets lockedState
    ∧ activeSheetId
        (current
           (snd (saveToIPFS (λ _ (n : nat), (Resolved "cid-1"%string, S n))
                   lockedState
                   (mkWorld sampleState 0%nat (λ _, "t"%string) 0%nat))))
      = activeSheetId lockedState.
Proof.
  apply (successful_save_commits_captured_state
           (λ _ (n : nat), (Resolved "cid-1"%string, S n)) lockedState
           (mkWorld sampleState 0%nat (λ _, "t"%string) 0%nat) "cid-1" 1%nat).
  reflexivity.
Defined.

(** X19: a load whose fetch rejects rejects with the same error and leaves
    the state; a load whose fetch resolves replaces the state by the loaded
    document. *)
Theorem load_outcome {Remote : Type}
    (load : string → Remote → Outcome DocumentState * Remote)
    (cid : string) (w : World Remote) :
  match load cid (remote w) with
  | (Rejected error, rem) =>
      fst (loadFromIPFS load cid w) = Rejected error
      ∧ current (snd (loadFromIPFS load cid w)) = current w
  | (Resolved loaded, rem) =>
      fst (loadFromIPFS load cid w) = Resolved tt
      ∧ current (snd (loadFromIPFS load cid w)) = loaded
  end.
Proof.
  unfold loadFromIPFS, tryCatch, bind, callService, dispatch, getNow, ret,
    throw.
  by destruct (load cid (remote w)) as [[loaded|error] rem].
Qed.

(** X20: [handleSave] resolves with [success] and the content identifier
    when the upload resolves, and with the failure and [error.message] when
    the upload rejects with an object (with [undefined] for a message, when
    it rejects with a boolean, a number, a string or an array).  When the
    upload rejects with [undefined] or [null], reading [error.message] throws
    in the catch block and [handleSave] itself rejects, with that TypeError.
    In every case the world is left as [saveToIPFS] leaves it. *)
Theorem handleSave_outcome {Remote : Type} (typeError : JsVal)
    (upload : DocumentState → Remote → Outcome string * Remote)
    (state : DocumentState) (w : World Remote) :
  snd (handleSave typeError (saveToIPFS upload state) w)
  = snd (saveToIPFS upload state w)
  ∧ fst (handleSave typeError (saveToIPFS upload state) w)
    = match upload state (remote w) with
      | (Resolved cid, _) => Resolved (SaveSucceeded cid)
      | (Rejected (JUndefined | JNull), _) => Rejected typeError
      | (Rejected (JObj error), _) =>
          Resolved (SaveFailed (prop error "message"))
      | (Rejected (JBool _ | JNum _ | JStr _ | JArr _), _) =>
          Resolved (SaveFailed JUndefined)
      end.
Proof.
  destruct (upload state (remote w)) as [[cid|error] rem] eqn:Hup.
  - destruct (saveToIPFS_resolved upload state w cid rem Hup) as [Hres _].
    unfold handleSave, tryCatch, bind, ret.
    destruct (saveToIPFS upload state w) as [r w']. cbn in *. by subst r.
  - unfold handleSave, tryCatch, bind, ret, throw.
    rewrite (saveToIPFS_rejected upload state w error rem Hup).
    by destruct error.
Qed.

(** ** The auto-save delay *)

(** The delay of the auto-save timer is a multiple of 1000 ms and never 0:
    an interval of 0 or without value gives 30 seconds. *)
Lemma autoSaveDelay_never_zero state :
  (∀ delay, autoSaveDelay state = Some delay →
            delay ≠ 0 ∧ (1000 | delay))
  ∧ (∀ n, settingsProp state "autoSaveInterval" = JNum n →
          autoSaveDelay state = Some (if n =? 0 then 30000 else n * 1000))
  ∧ (settingsProp state "autoSaveInterval" = JUndefined →
     autoSaveDelay state = Some 30000).
Proof.
  unfold autoSaveDelay, jsOr. split; [|split].
  - intros delay.
    destruct (settingsProp state "autoSaveInterval") as [| |b|n|s|l|o] eqn:Hv;
      cbn.
    + intros [= <-]. split; [done|]. by exists 30.
    + intros [= <-]. split; [done|]. by exists 30.
    + destruct b; cbn; [discriminate|].
      intros [= <-]. split; [done|]. by exists 30.
    + destruct (Z.eqb_spec n 0) as [->|Hn]; cbn; intros [= <-].
      * split; [done|]. by exists 30.
      * split; [lia|]. by exists n.
    + destruct (String.eqb s ""); cbn; [|discriminate].
      intros [= <-]. split; [done|]. by exists 30.
    + discriminate.
    + discriminate.
  - intros n ->. cbn. by destruct (Z.eqb_spec n 0).
  - by intros ->.
Qed.

(** ** The sheet of an export *)

(** X21: the CSV and PDF exports find a sheet to write exactly when the
    document has a sheet; it is one of the document's sheets, the first one
    when [activeSheetId] names none. *)
Theorem export_sheet_iff_sheets state :
  (exportSheet state = None ↔ sheets state = [])
  ∧ (∀ sheet, exportSheet state = Some sheet → sheet ∈ sheets state)
  ∧ (hasSheet state (activeSheetId state) = false →
     exportSheet state = head (sheets state)).
Proof.
  unfold exportSheet, activeSheet, findSheet, hasSheet. split; [|split].
  - destruct (List.find _ _) as [s|] eqn:Hf.
    + split; [discriminate|]. intros Hnil. by rewrite Hnil in Hf.
    + by destruct (sheets state).
  - intros sheet. destruct (List.find _ _) as [s|] eqn:Hf.
    + intros [= <-]. apply find_some in Hf as [Hin _].
      by apply list_elem_of_In.
    + intros Hh. by apply head_Some_elem_of.
  - intros Hno. destruct (List.find _ _) as [s|] eqn:Hf; [|done].
    apply find_some in Hf as [Hin Heq].
    assert (existsb (λ s, String.eqb (sheetId s) (activeSheetId state))
              (sheets state) = true) as Hex; [|congruence].
    apply existsb_exists. eauto.
Qed.

(** ** Column letters: no two names share an index *)

Lemma columnLoop_app s1 s2 : ∀ acc,
  columnLoop acc (s1 +:+ s2) = columnLoop (columnLoop acc s1) s2.
Proof. induction s1 as [|c s1 IH]; intros acc; cbn; [done|apply IH]. Qed.

Lemma charCode_inj c1 c2 : charCode c1 = charCode c2 → c1 = c2.
Proof.
  unfold charCode. intros H%Nat2Z.inj.
  by rewrite <- (ascii_nat_embedding c1), <- (ascii_nat_embedding c2), H.
Qed.

Lemma upperString_app s1 s2 :
  upperString (s1 +:+ s2) = upperString s1 && upperString s2.
Proof.
  unfold upperString.
  induction s1 as [|c s1 IH]; [done|].
  change (String c s1 +:+ s2) with (String c (s1 +:+ s2)).
  cbn [list_ascii_of_string forallb].
  by rewrite IH, andb_assoc.
Qed.

(** A string is empty or ends in a character. *)
Lemma string_snoc_case s :
  s = EmptyString ∨ ∃ s' c, s = s' +:+ String c EmptyString.
Proof.
  induction s as [|c s IH]; [by left|right].
  destruct IH as [->|(s' & c' & ->)].
  - by exists EmptyString, c.
  - by exists (String c s'), c'.
Qed.

Lemma string_snoc_length s c :
  String.length (s +:+ String c EmptyString) = S (String.length s).
Proof.
  induction s as [|d s IH]; [done|].
  change (String d s +:+ String c EmptyString)
    with (String d (s +:+ String c EmptyString)).
  cbn [String.length]. by rewrite IH.
Qed.

Lemma columnLoop_inj n : ∀ s1 s2,
  String.length s1 = n →
  upperString s1 = true → upperString s2 = true →
  columnLoop 0 s1 = columnLoop 0 s2 → s1 = s2.
Proof.
  induction n as [|n IH]; intros s1 s2 Hlen Hu1 Hu2 Heq.
  - destruct s1; [|discriminate]. cbn in Heq.
    destruct (string_snoc_case s2) as [->|(s' & c & ->)]; [done|].
    destruct (columnLoop_pos _ 0 Hu2) as [_ Hpos]; [done|].
    assert (s' +:+ String c EmptyString ≠ EmptyString) as Hne
      by by destruct s'.
    specialize (Hpos Hne). lia.
  - destruct (string_snoc_case s1) as [->|(s1' & c1 & ->)]; [discriminate|].
    rewrite string_snoc_length in Hlen. injection Hlen as Hlen.
    rewrite upperString_app in Hu1. apply andb_prop in Hu1 as [Hu1 Hc1].
    destruct (string_snoc_case s2) as [->|(s2' & c2 & ->)].
    + cbn in Heq. rewrite columnLoop_app in Heq. cbn in Heq.
      unfold upperString in Hc1. cbn in Hc1. rewrite andb_true_r in Hc1.
      apply isUpper_code in Hc1.
      destruct (columnLoop_pos _ 0 Hu1) as [Hpos _]; [done|]. lia.
    + rewrite upperString_app in Hu2. apply andb_prop in Hu2 as [Hu2 Hc2].
      rewrite !columnLoop_app in Heq. cbn in Heq.
      unfold upperString in Hc1, Hc2. cbn in Hc1, Hc2.
      rewrite andb_true_r in Hc1, Hc2.
      apply isUpper_code in Hc1, Hc2.
      assert (columnLoop 0 s1' = columnLoop 0 s2') as Hrec by lia.
      assert (charCode c1 = charCode c2) as Hc by lia.
      apply charCode_inj in Hc as ->.
      by rewrite (IH s1' s2' Hlen Hu1 Hu2 Hrec).
Qed.

(** X23: two strings of uppercase letters whose values are at most [2^53],
    and so any two names of up to 11 letters, have the same column index
    only when they are the same string.  Beyond [2^53] the index is rounded
    and names share one: ZZZZZZZZZZZA and ZZZZZZZZZZZB both give
    99246114928149440. *)
Theorem columnToIndex_injective_up_to_2_53 :
  (∀ s1 s2,
     upperString s1 = true → upperString s2 = true →
     base26Sum s1 ≤ 2 ^ 53 → base26Sum s2 ≤ 2 ^ 53 →
     Double.columnToIndex s1 = Double.columnToIndex s2 → s1 = s2)
  ∧ (∀ s1 s2,
     upperString s1 = true → upperString s2 = true →
     (String.length s1 ≤ 11)%nat → (String.length s2 ≤ 11)%nat →
     Double.columnToIndex s1 = Double.columnToIndex s2 → s1 = s2)
  ∧ Double.columnToIndex "ZZZZZZZZZZZA" = Double.Finite 99246114928149440
  ∧ Double.columnToIndex "ZZZZZZZZZZZB" = Double.Finite 99246114928149440.
Proof.
  assert (Hinj : ∀ s1 s2,
     upperString s1 = true → upperString s2 = true →
     base26Sum s1 ≤ 2 ^ 53 → base26Sum s2 ≤ 2 ^ 53 →
     Double.columnToIndex s1 = Double.columnToIndex s2 → s1 = s2).
  { intros s1 s2 Hu1 Hu2 Hb1 Hb2.
    rewrite !columnToIndex_exact by done. intros [= Heq].
    apply (columnLoop_inj (String.length s1)); [done|done|done|].
    rewrite !columnLoop_sum by done. lia. }
  split; [exact Hinj|]. split; [|split; by vm_compute].
  intros s1 s2 Hu1 Hu2 Hl1 Hl2.
  apply Hinj; try done; by apply base26Sum_eleven_letters.
Qed.

(** X24: the index of a string of uppercase letters is -1 for the empty
    string, from 0 to 25 for one letter and at least 26 for more. *)
Theorem columnToIndex_range s :
  upperString s = true →
  (s = EmptyString → columnToIndex s = -1)
  ∧ (s ≠ EmptyString → 0 ≤ columnToIndex s)
  ∧ (String.length s = 1%nat → columnToIndex s ≤ 25)
  ∧ ((2 ≤ String.length s)%nat → 26 ≤ columnToIndex s).
Proof.
  intros Hup. unfold columnToIndex. split; [by intros ->|]. split; [|split].
  - intros Hne. destruct (columnLoop_pos s 0 Hup) as [_ Hpos]; [done|].
    specialize (Hpos Hne). lia.
  - destruct s as [|c [|d s]]; try discriminate. intros _. cbn.
    unfold upperString in Hup. cbn in Hup. rewrite andb_true_r in Hup.
    apply isUpper_code in Hup. lia.
  - destruct s as [|c [|d s]]; cbn [String.length]; try lia. intros _.
    unfold upperString in Hup. cbn in Hup.
    apply andb_prop in Hup as [Hc Hup]. apply andb_prop in Hup as [Hd Hs].
    apply isUpper_code in Hc, Hd. cbn [columnLoop].
    destruct (columnLoop_pos s ((0 * 26 + (charCode c - 64)) * 26
                                  + (charCode d - 64)) Hs) as [Hle _]; lia.
Qed.

Lemma columnToIndex_range_witness :
  ("AA"%string = EmptyString → columnToIndex "AA" = -1)
  ∧ ("AA"%string ≠ EmptyString → 0 ≤ columnToIndex "AA")
  ∧ (String.length "AA" = 1%nat → columnToIndex "AA" ≤ 25)
  ∧ ((2 ≤ String.length "AA")%nat → 26 ≤ columnToIndex "AA").
Proof.
  apply (columnToIndex_range "AA"). reflexivity.
Defined.

(** ** The cells of the PDF *)




(** ** The column of a chart range *)

Lemma charCode_ascii_of_nat n :
  (n < 256)%nat → charCode (ascii_of_nat n) = Z.of_nat n.
Proof. intros Hn. unfold charCode. by rewrite nat_ascii_embedding. Qed.

Lemma isUpper_iff_code c : isUpper c = true ↔ 65 ≤ charCode c ≤ 90.
Proof.
  destruct c as [[] [] [] [] [] [] [] []]; vm_compute;
    (split; [intros ?; (discriminate || (split; discriminate))
            | intros [H1 H2]; first [reflexivity | by destruct H1
                                    | by destruct H2]]).
Qed.

(** X25: the column character that a chart range is written with is read
    back by [columnToIndex] as the selected column, and it is an uppercase
    letter only for the first 26 columns. *)
Theorem chart_column_letter c :
  0 ≤ c < 191 →
  columnToIndex (fromCharCode (65 + c)) = c
  ∧ (upperString (fromCharCode (65 + c)) = true ↔ c < 26).
Proof.
  intros Hc. unfold fromCharCode, columnToIndex. cbn [columnLoop].
  assert (charCode (ascii_of_nat (Z.to_nat (65 + c))) = 65 + c) as Hcode.
  { rewrite charCode_ascii_of_nat by lia. lia. }
  split; [lia|].
  unfold upperString. cbn. rewrite andb_true_r, isUpper_iff_code, Hcode. lia.
Qed.

Lemma chart_column_letter_witness :
  columnToIndex (fromCharCode (65 + 26)) = 26
  ∧ (upperString (fromCharCode (65 + 26)) = true ↔ 26 < 26).
Proof. apply (chart_column_letter 26). lia. Defined.

(** ** The sync hook *)

Lemma head_mapSheet sid f l :
  head (mapSheet sid f l)
  = (λ s, if String.eqb (sheetId s) sid then f s else s) <$> head l.
Proof. by destruct l. Qed.

Lemma syncSheetId_preserved st st' sid f :
  (∀ s, sheetId (f s) = sheetId s) →
  sheets st' = mapSheet sid f (sheets st) →
  syncSheetId st' = syncSheetId st.
Proof.
  intros Hf Hs. unfold syncSheetId. rewrite Hs, head_mapSheet.
  destruct (head (sheets st)) as [s|]; cbn; [|done].
  destruct (String.eqb (sheetId s) sid); by rewrite ?Hf.
Qed.

Lemma omap_nil_forall {A B} (f : A → option B) (l : list A) :
  (∀ x, x ∈ l → f x = None) → omap f l = [].
Proof.
  induction l as [|x l IH]; intros Hall; [done|]. cbn.
  rewrite (Hall x) by constructor. apply IH.
  intros y Hy. apply Hall. by constructor.
Qed.

Lemma omap_pointwise {A B} (f g : A → option B) (l : list A) :
  (∀ x, f x = g x) → omap f l = omap g l.
Proof.
  intros Hfg. induction l as [|x l IH]; [done|]. cbn. by rewrite Hfg, IH.
Qed.

Lemma omap_fmap_commute {A B C} (g : A → option B) (f : B → C) (l : list A) :
  omap (λ x, f <$> g x) l = f <$> omap g l.
Proof.
  induction l as [|x l IH]; [done|]. cbn.
  destruct (g x); cbn; by rewrite IH.
Qed.

Lemma strictEq_str s : strictEq (JStr s) (JStr s) = true.
Proof. cbn. apply String.eqb_refl. Qed.

(** *** Images *)

Lemma run_add_images sid objs : ∀ st steps,
  steps.*2 = ADD_IMAGE sid <$> objs →
  sheets (runActions st steps)
  = mapSheet sid (λ s, withImages (images s ++ objs) s) (sheets st).
Proof.
  induction objs as [|o objs IH]; intros st steps Hsteps.
  - destruct steps; [|done]. cbn. symmetry. apply mapSheet_fixed.
    intros [] _ _. cbn. by rewrite app_nil_r.
  - destruct steps as [|[now a] steps]; [done|]. cbn in Hsteps.
    injection Hsteps as -> Hsteps. cbn [runActions].
    rewrite (IH _ _ Hsteps). cbn -[mapSheet].
    rewrite mapSheet_compose by done.
    apply mapSheet_ext. intros s _. unfold compose. cbn.
    by rewrite <- app_assoc.
Qed.

(** X26: once the actions of the image effect are reduced, the effect has
    nothing left to add (the first sheet has an identifier and every
    floating image a string [id]). *)
Theorem sync_images_settles floatingImages st steps :
  (∀ s0, head (sheets st) = Some s0 → sheetId s0 ≠ ""%string) →
  (∀ img, img ∈ floatingImages → ∃ id, img !! "id" = Some (JStr id)) →
  steps.*2 = syncImages floatingImages st →
  syncImages floatingImages (runActions st steps) = [].
Proof.
  intros Hhead Hids Hsteps. unfold syncImages in Hsteps.
  destruct (head (sheets st)) as [s0|] eqn:Hs0; cycle 1.
  { destruct steps; [|done]. cbn. unfold syncImages. by rewrite Hs0. }
  specialize (Hhead s0 eq_refl).
  assert (syncSheetId st = sheetId s0) as Hsid.
  { unfold syncSheetId. rewrite Hs0. apply String.eqb_neq in Hhead.
    by rewrite Hhead. }
  rewrite Hsid in Hsteps.
  pose proof (run_add_images _ _ st steps Hsteps) as Hrun.
  unfold syncImages. rewrite Hrun, head_mapSheet, Hs0. cbn.
  rewrite String.eqb_refl. cbn. unfold missingImages at 1. cbn.
  rewrite (omap_nil_forall _ floatingImages); [done|].
  intros img Himg. rewrite existsb_app.
  destruct (existsb _ (images s0)) eqn:Hex; [done|]. cbn.
  assert (existsb (λ i, strictEq (prop i "id") (prop img "id"))
            (missingImages s0 floatingImages) = true) as ->; [|done].
  apply existsb_exists. exists (syncedImage img). split.
  - apply list_elem_of_In, list_elem_of_omap. exists img. split; [done|].
    by rewrite Hex.
  - destruct (Hids img Himg) as (id & Hid).
    unfold prop at 1. cbn. unfold prop. rewrite Hid. cbn.
    apply String.eqb_refl.
Qed.

Lemma sync_images_settles_witness :
  syncImages [{["id" := JStr "img-1"]}; {["id" := JStr "img-7"]}]
    (runActions lockedState
       [("t1", ADD_IMAGE "s1" (syncedImage {["id" := JStr "img-7"]}))])
  = [].
Proof.
  apply (sync_images_settles
           [{["id" := JStr "img-1"]}; {["id" := JStr "img-7"]}] lockedState
           [("t1", ADD_IMAGE "s1" (syncedImage {["id" := JStr "img-7"]}))]).
  - intros s0 [= <-]. done.
  - intros img [->|[->|[]%elem_of_nil]%elem_of_cons]%elem_of_cons;
      eexists; reflexivity.
  - reflexivity.
Defined.

(** *** Cell data *)

Lemma run_update_cells sid (ups : list (string * JsObj)) : ∀ st steps,
  steps.*2 = (λ up, UPDATE_CELL sid up.1 up.2) <$> ups →
  sheets (runActions st steps)
  = mapSheet sid
      (λ s, withCells
              (foldl (λ cs up, <[up.1 := mergeCell cs up.1 up.2]> cs)
                 (cells s) ups) s)
      (sheets st).
Proof.
  induction ups as [|[k d] ups IH]; intros st steps Hsteps.
  - destruct steps; [|done]. cbn. symmetry. apply mapSheet_fixed.
    by intros [] _ _.
  - destruct steps as [|[now a] steps]; [done|]. cbn in Hsteps.
    injection Hsteps as -> Hsteps. cbn [runActions].
    rewrite (IH _ _ Hsteps). cbn -[mapSheet].
    rewrite mapSheet_compose by done.
    apply mapSheet_ext. by intros s _.
Qed.

Lemma foldl_cells_other (ups : list (string * JsObj)) key :
  ∀ cs : gmap string JsObj,
  key ∉ ups.*1 →
  foldl (λ cs up, <[up.1 := mergeCell cs up.1 up.2]> cs) cs ups !! key
  = cs !! key.
Proof.
  induction ups as [|[k d] ups IH]; intros cs Hnin; [done|]. cbn in *.
  apply not_elem_of_cons in Hnin as [Hne Hnin].
  rewrite IH by done. by rewrite lookup_insert_ne.
Qed.

Lemma foldl_cells_value (P : JsVal → Prop) (ups : list (string * JsObj)) key :
  ∀ cs : gmap string JsObj,
  (∀ d, (key, d) ∈ ups → ∃ v, d !! "value" = Some v ∧ P v) →
  (key ∈ ups.*1
   ∨ ∃ cell v, cs !! key = Some cell ∧ cell !! "value" = Some v ∧ P v) →
  ∃ cell v,
    foldl (λ cs up, <[up.1 := mergeCell cs up.1 up.2]> cs) cs ups !! key
    = Some cell
    ∧ cell !! "value" = Some v ∧ P v.
Proof.
  induction ups as [|[k d] ups IH]; intros cs Hall Hhas.
  - destruct Hhas as [Hin|Hcell]; [by apply elem_of_nil in Hin|done].
  - cbn. apply IH.
    + intros d' Hd'. apply Hall. by right.
    + destruct (decide (k = key)) as [->|Hne].
      * right. destruct (Hall d) as (v & Hv & HP); [by left|].
        exists (mergeCell cs key d), v. rewrite lookup_insert_eq.
        split; [done|]. split; [|done].
        unfold mergeCell. rewrite lookup_union, Hv.
        by destruct (default ∅ (cs !! key) !! "value").
      * rewrite lookup_insert_ne by done.
        destruct Hhas as [Hin|Hcell]; [left|by right].
        cbn in Hin. by apply elem_of_cons in Hin as [?|Hin].
Qed.

Lemma cellDataUpdates_spec activeSheet cellData key d :
  (key, d) ∈ cellDataUpdates activeSheet cellData ↔
  ∃ value,
    (key, value) ∈ cellData
    ∧ ((∃ s, value = JStr s) ∨ (∃ n, value = JNum n))
    ∧ match cells activeSheet !! key with
      | None => True
      | Some currentCell => strictEq (prop currentCell "value") value = false
      end
    ∧ d = {["value" := JStr (toStringPrim value); "type" := JStr "string"]}.
Proof.
  unfold cellDataUpdates. rewrite list_elem_of_omap. split.
  - intros ([k value] & Hin & Hsome). exists value.
    destruct value; try discriminate;
      destruct (cells activeSheet !! k) as [cell|] eqn:Hc;
      try (destruct (strictEq _ _) eqn:Heq; cbn in Hsome; try discriminate);
      injection Hsome as -> <-; rewrite Hc; eauto 10.
  - intros (value & Hin & Hty & Hneed & ->). exists (key, value).
    split; [done|].
    destruct Hty as [[s ->]|[n ->]];
      destruct (cells activeSheet !! key) as [cell|]; cbn;
      by rewrite ?Hneed.
Qed.

Lemma NoDup_fst_unique {A B} (l : list (A * B)) k v1 v2 :
  NoDup l.*1 → (k, v1) ∈ l → (k, v2) ∈ l → v1 = v2.
Proof.
  induction l as [|[k' v'] l IH]; intros Hnd H1 H2.
  - by apply elem_of_nil in H1.
  - cbn in Hnd. apply NoDup_cons in Hnd as [Hnin Hnd].
    apply elem_of_cons in H1 as [H1|H1]; apply elem_of_cons in H2 as [H2|H2].
    + congruence.
    + injection H1 as -> ->. destruct Hnin.
      apply list_elem_of_fmap. by exists (k', v2).
    + injection H2 as -> ->. destruct Hnin.
      apply list_elem_of_fmap. by exists (k', v1).
    + by apply IH.
Qed.

Lemma payload_value value :
  ({["value" := JStr (toStringPrim value); "type" := JStr "string"]} : JsObj)
    !! "value" = Some (JStr (toStringPrim value)).
Proof. by rewrite lookup_insert_eq. Qed.

Lemma strictEq_str_true v s :
  strictEq v (JStr s) = true ↔ v = JStr s.
Proof.
  destruct v; cbn; try (split; [discriminate|done]); try by split.
  split.
  - by intros ->%String.eqb_eq.
  - intros [= ->]. apply String.eqb_refl.
Qed.

(** The state of the first sheet's cells after the effect's actions. *)
Lemma sync_cell_data_run cellData st steps s0 :
  head (sheets st) = Some s0 → sheetId s0 ≠ ""%string →
  steps.*2 = syncCellData cellData st →
  syncSheetId (runActions st steps) = sheetId s0
  ∧ ∃ s1,
      head (sheets (runActions st steps)) = Some s1
      ∧ cells s1
        = foldl (λ cs up, <[up.1 := mergeCell cs up.1 up.2]> cs)
            (cells s0) (cellDataUpdates s0 cellData).
Proof.
  intros Hs0 Hne Hsteps. unfold syncCellData in Hsteps. rewrite Hs0 in Hsteps.
  assert (syncSheetId st = sheetId s0) as Hsid.
  { unfold syncSheetId. rewrite Hs0. apply String.eqb_neq in Hne.
    by rewrite Hne. }
  rewrite Hsid in Hsteps.
  pose proof (run_update_cells _ _ st steps Hsteps) as Hrun. split.
  - rewrite <- Hsid. eapply syncSheetId_preserved; [|exact Hrun]. done.
  - rewrite Hrun, head_mapSheet, Hs0. cbn. rewrite String.eqb_refl.
    eexists. split; [reflexivity|]. reflexivity.
Qed.

(** X27: once the actions of the cell-data effect are reduced, the effect
    has nothing left to update when no entry is a number (the first sheet
    has an identifier, the keys are distinct). *)
Theorem sync_cell_data_settles_for_strings cellData st steps :
  (∀ s0, head (sheets st) = Some s0 → sheetId s0 ≠ ""%string) →
  NoDup cellData.*1 →
  (∀ key n, (key, JNum n) ∉ cellData) →
  steps.*2 = syncCellData cellData st →
  syncCellData cellData (runActions st steps) = [].
Proof.
  intros Hhead Hnodup Hnonum Hsteps.
  destruct (head (sheets st)) as [s0|] eqn:Hs0; cycle 1.
  { unfold syncCellData in *. rewrite Hs0 in Hsteps.
    destruct steps; [|done]. cbn. by rewrite Hs0. }
  destruct (sync_cell_data_run cellData st steps s0 Hs0 (Hhead s0 eq_refl)
              Hsteps) as (Hsid & s1 & Hs1 & Hcells).
  unfold syncCellData. rewrite Hs1.
  assert (cellDataUpdates s1 cellData = []) as ->; [|done].
  apply omap_nil_forall. intros [key value] Hin.
  destruct value as [| |b|n|s|l|o]; try done.
  { by destruct (Hnonum key n). }
  assert (∃ cell v,
    cells s1 !! key = Some cell ∧ cell !! "value" = Some v ∧ v = JStr s)
    as (cell & v & Hcell & Hv & ->).
  { rewrite Hcells. apply foldl_cells_value.
    - intros d Hd. apply cellDataUpdates_spec in Hd
        as (value & Hin' & _ & _ & ->).
      rewrite (NoDup_fst_unique _ _ _ _ Hnodup Hin' Hin).
      eexists. split; [apply payload_value|done].
    - destruct (cells s0 !! key) as [cell0|] eqn:Hc0.
      + destruct (strictEq (prop cell0 "value") (JStr s)) eqn:Heq.
        * right. apply strictEq_str_true in Heq.
          exists cell0, (JStr s). split; [done|]. split; [|done].
          unfold prop in Heq.
          destruct (cell0 !! "value") as [v|]; cbn in Heq;
            [by subst|discriminate].
        * left. apply list_elem_of_fmap. eexists (key, _). split; [done|].
          apply cellDataUpdates_spec. exists (JStr s).
          rewrite Hc0. eauto 10.
      + left. apply list_elem_of_fmap. eexists (key, _). split; [done|].
        apply cellDataUpdates_spec. exists (JStr s).
        rewrite Hc0. eauto 10. }
  rewrite Hcell. unfold prop. rewrite Hv. cbn.
  by rewrite String.eqb_refl.
Qed.

(** X28: for an entry that is a number, an update of its cell dispatched
    by the cell-data effect is dispatched again by the next run: the cell
    then holds the number as a string, which is never [===] the number. *)
Theorem sync_cell_data_repeats_numbers cellData st steps key n d :
  (∀ s0, head (sheets st) = Some s0 → sheetId s0 ≠ ""%string) →
  (key, JNum n) ∈ cellData →
  steps.*2 = syncCellData cellData st →
  UPDATE_CELL (syncSheetId st) key d ∈ syncCellData cellData st →
  UPDATE_CELL (syncSheetId st) key
    {["value" := JStr (pretty n); "type" := JStr "string"]}
  ∈ syncCellData cellData (runActions st steps).
Proof.
  intros Hhead Hin Hsteps Hfirst.
  destruct (head (sheets st)) as [s0|] eqn:Hs0; cycle 1.
  { unfold syncCellData in Hfirst. rewrite Hs0 in Hfirst.
    by apply elem_of_nil in Hfirst. }
  destruct (sync_cell_data_run cellData st steps s0 Hs0 (Hhead s0 eq_refl)
              Hsteps) as (Hsid & s1 & Hs1 & Hcells).
  assert (syncSheetId st = sheetId s0) as Hsid0.
  { unfold syncSheetId. rewrite Hs0.
    pose proof (Hhead s0 eq_refl) as Hne. apply String.eqb_neq in Hne.
    by rewrite Hne. }
  unfold syncCellData in Hfirst |- *. rewrite Hs0 in Hfirst. rewrite Hs1.
  rewrite Hsid, Hsid0. apply list_elem_of_fmap.
  exists (key, {["value" := JStr (pretty n); "type" := JStr "string"]}).
  split; [done|]. apply cellDataUpdates_spec. exists (JNum n).
  split; [done|]. split; [eauto|]. split; [|done].
  apply list_elem_of_fmap in Hfirst as ([k d'] & [= <- <-] & Hup).
  assert (∃ cell v,
    cells s1 !! key = Some cell ∧ cell !! "value" = Some v
    ∧ ∃ s, v = JStr s) as (cell & v & Hcell & Hv & s & ->).
  { rewrite Hcells. apply foldl_cells_value.
    - intros d' Hd'. apply cellDataUpdates_spec in Hd'
        as (value & _ & _ & _ & ->).
      eexists. split; [apply payload_value|eauto].
    - left. apply list_elem_of_fmap. by exists (key, d). }
  rewrite Hcell. unfold prop. by rewrite Hv.
Qed.

Lemma sync_cell_data_settles_for_strings_witness :
  syncCellData [("A1"%string, JStr "x"); ("B1"%string, JStr "z")]
    (runActions lockedState
       [("t1", UPDATE_CELL "s1" "B1"
                 {["value" := JStr "z"; "type" := JStr "string"]})])
  = [].
Proof.
  apply (sync_cell_data_settles_for_strings
           [("A1"%string, JStr "x"); ("B1"%string, JStr "z")] lockedState
           [("t1", UPDATE_CELL "s1" "B1"
                     {["value" := JStr "z"; "type" := JStr "string"]})]).
  - intros s0 [= <-]. done.
  - cbn. apply NoDup_cons. split.
    + intros Hin. apply list_elem_of_singleton in Hin. discriminate.
    + apply NoDup_singleton.
  - intros key n Hin.
    apply elem_of_cons in Hin as [Hin|Hin]; [discriminate|].
    apply list_elem_of_singleton in Hin. discriminate.
  - reflexivity.
Defined.

Lemma sync_cell_data_repeats_numbers_witness :
  UPDATE_CELL (syncSheetId lockedState) "C1"
    {["value" := JStr (pretty 5); "type" := JStr "string"]}
  ∈ syncCellData [("C1"%string, JNum 5)]
      (runActions lockedState
         [("t1", UPDATE_CELL "s1" "C1"
                   {["value" := JStr "5"; "type" := JStr "string"]})]).
Proof.
  apply (sync_cell_data_repeats_numbers [("C1"%string, JNum 5)] lockedState
           [("t1", UPDATE_CELL "s1" "C1"
                     {["value" := JStr "5"; "type" := JStr "string"]})]
           "C1" 5 {["value" := JStr "5"; "type" := JStr "string"]}).
  - intros s0 [= <-]. done.
  - constructor.
  - reflexivity.
  - constructor.
Defined.

(** ** The help overlay *)

Lemma clicks_in_range {A} (steps : list A) clicks : ∀ cur,
  0 ≤ cur < Z.of_nat (length steps) →
  0 ≤ foldl
        (λ currentStep click,
           match click with
           | ClickNext => (handleNext steps currentStep).1
           | ClickPrevious => handlePrevious currentStep
           end)
        cur clicks
    < Z.of_nat (length steps).
Proof.
  induction clicks as [|click clicks IH]; intros cur Hcur; [done|].
  cbn [foldl]. apply IH. destruct click; unfold handleNext, handlePrevious.
  - destruct (Z.ltb_spec cur (Z.of_nat (length steps) - 1)); cbn; lia.
  - destruct (Z.gtb_spec cur 0); lia.
Qed.

Lemma afterClicks_in_range {A} (steps : list A) clicks :
  steps ≠ [] → 0 ≤ afterClicks steps clicks < Z.of_nat (length steps).
Proof.
  intros Hne. apply clicks_in_range.
  destruct steps; [done|]. cbn [length]. lia.
Qed.

(** X29: with at least one step, after any clicks on Next and Previous the
    open overlay renders one of the steps; Next calls [onClose] exactly on
    the last step. *)
Theorem overlay_always_shows_a_step {A} (steps : list A) clicks :
  steps ≠ [] →
  (∃ step, renderOverlay true steps (afterClicks steps clicks)
           = RendersStep step
           ∧ step ∈ steps)
  ∧ ((handleNext steps (afterClicks steps clicks)).2 = true ↔
     afterClicks steps clicks = Z.of_nat (length steps) - 1).
Proof.
  intros Hne. pose proof (afterClicks_in_range steps clicks Hne) as Hr.
  split.
  - unfold renderOverlay, stepAt. cbn.
    destruct (Z.ltb_spec (afterClicks steps clicks) 0); [lia|].
    destruct (lookup_lt_is_Some_2 steps (Z.to_nat (afterClicks steps clicks)))
      as [step Hstep]; [lia|].
    rewrite Hstep. exists step. split; [done|].
    by eapply list_elem_of_lookup_2.
  - unfold handleNext.
    destruct (Z.ltb_spec (afterClicks steps clicks)
                (Z.of_nat (length steps) - 1)); cbn; split; (done || lia).
Qed.

Lemma overlay_always_shows_a_step_witness :
  (∃ step, renderOverlay true ["a"; "b"; "c"]
             (afterClicks ["a"; "b"; "c"]
                [ClickNext; ClickNext; ClickNext; ClickPrevious])
           = RendersStep step
           ∧ step ∈ ["a"; "b"; "c"])
  ∧ ((handleNext ["a"; "b"; "c"]
        (afterClicks ["a"; "b"; "c"]
           [ClickNext; ClickNext; ClickNext; ClickPrevious])).2 = true ↔
     afterClicks ["a"; "b"; "c"]
       [ClickNext; ClickNext; ClickNext; ClickPrevious]
     = Z.of_nat (length ["a"; "b"; "c"]) - 1).
Proof.
  apply (overlay_always_shows_a_step ["a"; "b"; "c"]
           [ClickNext; ClickNext; ClickNext; ClickPrevious]).
  done.
Defined.

(** X30: without steps the index stays 0 whatever is clicked, the open
    overlay throws and the closed one renders nothing. *)
Theorem overlay_without_steps_throws {A} (clicks : list OverlayClick) :
  afterClicks (@nil A) clicks = 0
  ∧ renderOverlay true (@nil A) (afterClicks (@nil A) clicks) = Throws
  ∧ renderOverlay false (@nil A) (afterClicks (@nil A) clicks)
    = RendersNothing.
Proof.
  assert (afterClicks (@nil A) clicks = 0) as ->; [|done].
  unfold afterClicks. induction clicks as [|[] clicks IH]; [done| |]; exact IH.
Qed.
